(** * Game Code Sender: pool lifecycle and fan-out delivery

    A shallow embedding of [dingomata/cogs/gamecode/gamecode.py]
    (class [GameCodeSenderCommands]) and of the [MemberPool] it drives.

    The cog is a Python object with mutable attributes, so every command
    handler is a computation in a small state / trace / exception monad
    over the record [Cog].  Attributes that the source rebinds to values of
    another Python type ([_picked_users], [_previously_selected_users]) are
    tagged unions of the types they can hold at run time. *)

From stdpp Require Import gmap strings list fin_maps.
From Stdlib Require Import ZArith Lia.

Local Open Scope Z_scope.

(** ** Platform data *)

(** A [discord.Member] is a handle on a platform user.  discord.py hashes
    and compares members by their id alone, so a member is its id; display
    name and roles are read from the platform (see [World]). *)
Record Member := { member_id : Z }.

#[global] Instance Member_eq_dec : EqDecision Member.
Proof. solve_decision. Defined.

#[global] Instance Member_countable : Countable Member.
Proof.
  refine (inj_countable' member_id (fun z => {| member_id := z |}) _).
  by intros [].
Defined.

(** Result of [await user.send(message)] for a text message: it returns, or
    raises [Forbidden], or raises another [HTTPException] (carrying its
    text).  [Forbidden] is a subclass of [HTTPException]. *)
Inductive SendOutcome :=
| Delivered
| Forbidden
| HTTPException (e : string).

(** The part of [get_guild_config(guild).game_code] the handlers branch on.
    The message templates only feed [str.format] and are not modelled. *)
Record GameCodeConfig := {
  player_roles : list Z;
  exclude_selected : bool
}.

(** Everything the cog reads from outside itself. *)
Record World := {
  get_guild_config : Z -> GameCodeConfig;
  member_roles : Member -> list Z;
  display_name : Member -> string;
  dm_send : Member -> SendOutcome
}.

(** ** Exceptions that leave a handler *)
Inductive Exn :=
| KeyError
| IndexError
| TypeError
| EmptyPoolError
| InvalidCountError.

(** ** MemberPool *)
Module MemberPool.

(** Modelled from the spec: [dingomata/cogs/gamecode/pool.py] (class
    [MemberPool] and [MemberRoleError]) is not part of the sources at
    hand.  Spec 3 and 4.1-4.3: a pool has a state Open/Closed, initially
    Closed, and an unordered set of members unique by identifier. *)
Record t := {
  guild_id : Z;
  is_open : bool;
  members : gset Member
}.

(** Modelled from the spec: [MemberPool(guild_id)], "initial = Closed". *)
Definition init (gid : Z) : t :=
  {| guild_id := gid; is_open := false; members := ∅ |}.

(** Modelled from the spec: [open] "state->Open, clears nothing". *)
Definition open (p : t) : t :=
  {| guild_id := guild_id p; is_open := true; members := members p |}.

(** Modelled from the spec: [close] "-> Closed, always succeeds,
    idempotent". *)
Definition close (p : t) : t :=
  {| guild_id := guild_id p; is_open := false; members := members p |}.

(** Modelled from the spec: [clear_pool] "empty membership". *)
Definition clear (p : t) : t :=
  {| guild_id := guild_id p; is_open := is_open p; members := ∅ |}.

(** Modelled from the spec: [size()] "cardinality of Pool.members". *)
Definition size (p : t) : nat := size (members p).

(** Modelled from the spec: the role constraint of [join]: "if the guild
    configures required roles for joining, member's role set must
    intersect the configured required-role set". *)
Definition eligible (required held : list Z) : bool :=
  match required with
  | [] => true
  | _ => existsb (fun r => bool_decide (r ∈ required)) held
  end.

(** Modelled from the spec: [add_member]; [inl reason] stands for raising
    [MemberRoleError(reason)].  Re-joining is idempotent. *)
Definition add_member (required held : list Z) (p : t) (m : Member)
  : string + t :=
  if eligible required held
  then inr {| guild_id := guild_id p; is_open := is_open p;
              members := {[ m ]} ∪ members p |}
  else inl "You do not have the required roles to join this pool."%string.

(** Modelled from the spec: [remove_member]; "removing a member not
    present is idempotent". *)
Definition remove_member (p : t) (m : Member) : t :=
  {| guild_id := guild_id p; is_open := is_open p;
     members := members p ∖ {[ m ]} |}.

(** Modelled from the spec: "sample without replacement of
    min(count, size()) members", with the source of randomness injected:
    each draw consumes one number and takes the member at that position
    (modulo the remaining population) out of the population. *)
Fixpoint sample (population : list Member) (k : nat) (draws : list nat)
  : list Member :=
  match k with
  | O => []
  | S k' =>
      match population with
      | [] => []
      | _ :: _ =>
          let i := (hd 0%nat draws mod length population)%nat in
          match population !! i with
          | Some m => m :: sample (delete i population) k' (tl draws)
          | None => []
          end
      end
  end.

(** Modelled from the spec: [pick(count)].  "pick always closes the
    pool"; an invalid count (<= 0) is "rejected before any draw occurs";
    an empty pool fails with EmptyPool; membership is retained. *)
Definition pick (p : t) (count : Z) (draws : list nat)
  : t * (Exn + list Member) :=
  let p' := close p in
  if count <=? 0 then (p', inl InvalidCountError)
  else if (size p =? 0)%nat then (p', inl EmptyPoolError)
  else (p', inr (sample (elements (members p)) (Z.to_nat count) draws)).

End MemberPool.

(** ** The cog's attributes *)

(** [self._picked_users]: [__init__] binds it to an empty
    [Dict[int, List[Member]]]; [pick] rebinds it to what [pool.pick]
    returns, a sequence of members (line 148 iterates it for their display
    names, line 145 adds its elements to a set of members). *)
Inductive PickedUsers :=
| PUDict (d : gmap Z (list Member))
| PUList (l : list Member).

(** [self._previously_selected_users]: [__init__] binds it to an empty
    [Dict[int, Set[Member]]]; [clear_selected] rebinds it to [set()]. *)
Inductive PreviouslySelected :=
| PSDict (d : gmap Z (gset Member))
| PSSet (s : gset Member).

Record Cog := {
  _pools : gmap Z MemberPool.t;
  _title : string;
  _picked_users : PickedUsers;
  _previously_selected_users : PreviouslySelected
}.

(** [__init__] *)
Definition init : Cog :=
  {| _pools := ∅; _title := EmptyString;
     _picked_users := PUDict ∅;
     _previously_selected_users := PSDict ∅ |}.

(** ** What a handler emits *)

(** Texts passed to [ctx.reply], one constructor per call site. *)
Inductive Reply :=
| ReplyRecentlySelected               (* join, line 47 *)
| ReplyJoined (title : string)        (* join, line 52 *)
| ReplyRoleIneligible (reason : string) (* join, line 55: str(e) *)
| ReplyPoolClosed                     (* join, line 58 *)
| ReplyLeft (title : string)          (* leave, line 72 *)
| ReplyLeaveClosed                    (* leave, line 76 *)
| ReplyOpened (title : string)        (* open, line 100 *)
| ReplyClosed                         (* close, line 119 *)
| ReplyDmForbidden (user : Member)    (* resend, line 170 *)
| ReplyDmFailed (user : Member) (e : string) (* resend, line 174 *)
| ReplyAllDone                        (* resend, line 176 *)
| ReplyMembers (names : list string)  (* list, line 187 *)
| ReplyCleared.                       (* clear_pool / clear_selected *)

(** Embeds sent to the guild's player channel. *)
Inductive Embed :=
| EmbedOpened (title : string)
| EmbedClosed (title : string) (entries : nat)
| EmbedPicked (title : string) (entries : nat) (names : list string).

(** What the handler hands to the platform client, in order.  [ctx.reply]
    and the channel's [send] are calls whose outcome no handler inspects;
    the platform is taken to accept them, and they are recorded as events.
    [EvDM] records that [user.send(message)] was called; whether the
    message arrived is the platform's answer [dm_send]. *)
Inductive Event :=
| EvReply (r : Reply)
| EvChannel (gid : Z) (e : Embed)
| EvDM (user : Member) (message : string).

(** ** The handler monad: state, trace of events, exceptions.

    Attribute assignments made before an exception is raised stay made;
    events emitted before it stay emitted. *)
Inductive Res (A : Type) :=
| Ok (a : A)
| Raise (e : Exn).
Arguments Ok {A} a.
Arguments Raise {A} e.

Definition M (A : Type) : Type := Cog -> Res A * Cog * list Event.

Definition ret {A} (a : A) : M A := fun st => (Ok a, st, []).

Definition bind {A B} (m : M A) (k : A -> M B) : M B := fun st =>
  match m st with
  | (Ok a, st1, ev1) =>
      match k a st1 with
      | (r, st2, ev2) => (r, st2, ev1 ++ ev2)
      end
  | (Raise e, st1, ev1) => (Raise e, st1, ev1)
  end.

Notation "x <- m ;; k" := (bind m (fun x => k))
  (at level 100, m at next level, right associativity).
Notation "m ;;; k" := (bind m (fun _ => k))
  (at level 100, right associativity).

Definition raise {A} (e : Exn) : M A := fun st => (Raise e, st, []).
Definition get : M Cog := fun st => (Ok st, st, []).
Definition emit (e : Event) : M unit := fun st => (Ok tt, st, [e]).
Definition reply (r : Reply) : M unit := emit (EvReply r).

Definition result_of {A} (x : Res A * Cog * list Event) : Res A := x.1.1.
Definition state_of {A} (x : Res A * Cog * list Event) : Cog := x.1.2.
Definition events_of {A} (x : Res A * Cog * list Event) : list Event := x.2.

(** Attribute assignment. *)
Definition set_pools (ps : gmap Z MemberPool.t) : M unit := fun st =>
  (Ok tt, {| _pools := ps; _title := _title st;
             _picked_users := _picked_users st;
             _previously_selected_users := _previously_selected_users st |}, []).

Definition set_title (t : string) : M unit := fun st =>
  (Ok tt, {| _pools := _pools st; _title := t;
             _picked_users := _picked_users st;
             _previously_selected_users := _previously_selected_users st |}, []).

Definition set_picked_users (pu : PickedUsers) : M unit := fun st =>
  (Ok tt, {| _pools := _pools st; _title := _title st;
             _picked_users := pu;
             _previously_selected_users := _previously_selected_users st |}, []).

Definition set_previously_selected_users (ps : PreviouslySelected) : M unit :=
  fun st =>
  (Ok tt, {| _pools := _pools st; _title := _title st;
             _picked_users := _picked_users st;
             _previously_selected_users := ps |}, []).

(** ** Python operations on the dynamically typed attributes *)

(** [l[i]] on a Python list: negative indices count from the end. *)
Definition py_list_getitem {A} (l : list A) (i : Z) : option A :=
  let n := Z.of_nat (length l) in
  if (0 <=? i) && (i <? n) then l !! Z.to_nat i
  else if (- n <=? i) && (i <? 0) then l !! Z.to_nat (n + i)
  else None.

(** The value of [self._picked_users[guild_id]]. *)
Inductive Subscripted :=
| SubList (l : list Member)
| SubMember (m : Member).

Definition picked_users_getitem (pu : PickedUsers) (gid : Z)
  : Exn + Subscripted :=
  match pu with
  | PUDict d =>
      match d !! gid with
      | Some l => inr (SubList l)
      | None => inl KeyError
      end
  | PUList l =>
      match py_list_getitem l gid with
      | Some m => inr (SubMember m)
      | None => inl IndexError
      end
  end.

(** [for user in v]: a list is iterated, a [Member] is not iterable. *)
Definition py_iter (v : Subscripted) : Exn + list Member :=
  match v with
  | SubList l => inr l
  | SubMember _ => inl TypeError
  end.

(** The value of [self._previously_selected_users[guild_id]]: a lookup in
    the dict; a [set] is not subscriptable. *)
Definition previously_selected_getitem (ps : PreviouslySelected) (gid : Z)
  : Exn + gset Member :=
  match ps with
  | PSDict d =>
      match d !! gid with
      | Some s => inr s
      | None => inl KeyError
      end
  | PSSet _ => inl TypeError
  end.

(** [author in self._previously_selected_users]: on the dict this tests the
    keys, which are guild ids ([int]); a [Member] equals no [int].  On a
    set it is set membership. *)
Definition previously_selected_contains (author : Member)
  (ps : PreviouslySelected) : bool :=
  match ps with
  | PSDict _ => false
  | PSSet s => bool_decide (author ∈ s)
  end.

Definition lift_exn {A} (x : Exn + A) : M A :=
  match x with
  | inl e => raise e
  | inr a => ret a
  end.

(** ** Command handlers of [GameCodeSenderCommands] *)

(** [_pool_for_guild]: the guild's pool, created on first use. *)
Definition _pool_for_guild (gid : Z) : M MemberPool.t := fun st =>
  match _pools st !! gid with
  | Some p => (Ok p, st, [])
  | None =>
      let p := MemberPool.init gid in
      match set_pools (<[gid := p]> (_pools st)) st with
      | (_, st', ev) => (Ok p, st', ev)
      end
  end.

(** A pool is a mutable object held in [self._pools]; a method that
    mutates it writes the new contents back under the guild's key. *)
Definition store_pool (gid : Z) (p : MemberPool.t) : M unit :=
  st <- get ;; set_pools (<[gid := p]> (_pools st)).

(** [join] (lines 41-59) *)
Definition join (w : World) (gid : Z) (author : Member) : M unit :=
  pool <- _pool_for_guild gid ;;
  if MemberPool.is_open pool then
    st <- get ;;
    if previously_selected_contains author (_previously_selected_users st)
    then reply ReplyRecentlySelected
    else
      match MemberPool.add_member (player_roles (get_guild_config w gid))
                                  (member_roles w author) pool author with
      | inr pool' =>
          store_pool gid pool' ;;;
          st' <- get ;;
          reply (ReplyJoined (_title st'))
      | inl reason => reply (ReplyRoleIneligible reason)
      end
  else reply ReplyPoolClosed.

(** [leave] (lines 67-77) *)
Definition leave (w : World) (gid : Z) (author : Member) : M unit :=
  pool <- _pool_for_guild gid ;;
  if MemberPool.is_open pool then
    store_pool gid (MemberPool.remove_member pool author) ;;;
    st <- get ;;
    reply (ReplyLeft (_title st))
  else reply ReplyLeaveClosed.

(** [open] (lines 90-100); Python's [if title:] holds for a non-empty
    string. *)
Definition open (w : World) (gid : Z) (title : string) : M unit :=
  pool <- _pool_for_guild gid ;;
  store_pool gid (MemberPool.open pool) ;;;
  (if bool_decide (title = EmptyString) then ret tt else set_title title) ;;;
  emit (EvChannel gid (EmbedOpened title)) ;;;
  st <- get ;;
  reply (ReplyOpened (_title st)).

(** [close] (lines 110-119) *)
Definition close (w : World) (gid : Z) : M unit :=
  pool <- _pool_for_guild gid ;;
  let pool' := MemberPool.close pool in
  store_pool gid pool' ;;;
  st <- get ;;
  emit (EvChannel gid (EmbedClosed (_title st) (MemberPool.size pool'))) ;;;
  reply ReplyClosed.

(** One iteration of the loop in [resend] (lines 166-175): the send is
    attempted, and each of the two handled exceptions becomes a reply. *)
Definition send_one (w : World) (message : string) (user : Member) : M unit :=
  emit (EvDM user message) ;;;
  match dm_send w user with
  | Delivered => ret tt
  | Forbidden => reply (ReplyDmForbidden user)
  | HTTPException e => reply (ReplyDmFailed user e)
  end.

(** The loop of [resend] (line 165) over a list of recipients. *)
Fixpoint dispatch (w : World) (recipients : list Member) (message : string)
  : M unit :=
  match recipients with
  | [] => ret tt
  | user :: rest => send_one w message user ;;; dispatch w rest message
  end.

(** [resend] (lines 164-176) *)
Definition resend (w : World) (gid : Z) (message : string) : M unit :=
  st <- get ;;
  v <- lift_exn (picked_users_getitem (_picked_users st) gid) ;;
  recipients <- lift_exn (py_iter v) ;;
  dispatch w recipients message ;;;
  reply ReplyAllDone.

(** [pool.pick(count)] on the pool object of guild [gid]: the pool is
    mutated whether or not the call raises. *)
Definition pool_pick (gid : Z) (pool : MemberPool.t) (count : Z)
  (draws : list nat) : M (list Member) :=
  store_pool gid (MemberPool.pick pool count draws).1 ;;;
  lift_exn (MemberPool.pick pool count draws).2.

(** [self._previously_selected_users[gid].update(picked)] (line 145) *)
Definition previously_selected_update (gid : Z) (picked : list Member)
  : M unit :=
  st <- get ;;
  match _previously_selected_users st with
  | PSDict d =>
      match d !! gid with
      | Some s =>
          set_previously_selected_users
            (PSDict (<[gid := s ∪ list_to_set picked]> d))
      | None => raise KeyError
      end
  | PSSet _ => raise TypeError
  end.

(** [self.resend(ctx, message=message)] as [pick] writes it at line 151.
    Inside the class, [resend] names what the [@cog_subcommand] decorator
    returned in place of the coroutine function: a [CogSubcommandObject],
    which the command framework runs through its [invoke] method and which
    is not callable.  The call raises [TypeError] and no line of [resend]
    runs. *)
Definition call_resend_object (message : string) : M unit :=
  raise TypeError.

(** [pick] (lines 133-151); [draws] is what the random source yields
    during this call. *)
Definition pick (w : World) (gid : Z) (count : Z) (message : string)
  (draws : list nat) : M unit :=
  pool <- _pool_for_guild gid ;;
  picked <- pool_pick gid pool count draws ;;
  set_picked_users (PUList picked) ;;;
  (if exclude_selected (get_guild_config w gid)
   then previously_selected_update gid picked
   else ret tt) ;;;
  pool' <- _pool_for_guild gid ;;
  st <- get ;;
  emit (EvChannel gid (EmbedPicked (_title st) (MemberPool.size pool')
                                   (display_name w <$> picked))) ;;;
  call_resend_object message.

(** [list] (lines 186-188) *)
Definition list_members (w : World) (gid : Z) : M unit :=
  pool <- _pool_for_guild gid ;;
  reply (ReplyMembers (display_name w <$> elements (MemberPool.members pool))).

(** [clear_pool] (lines 198-200) *)
Definition clear_pool (w : World) (gid : Z) : M unit :=
  pool <- _pool_for_guild gid ;;
  store_pool gid (MemberPool.clear pool) ;;;
  reply ReplyCleared.

(** [clear_selected] (lines 210-212) *)
Definition clear_selected (w : World) (gid : Z) : M unit :=
  set_previously_selected_users (PSSet ∅) ;;;
  reply ReplyCleared.

(** The operations of the engine, as the command layer invokes them for a
    guild. *)
Inductive Command :=
| CmdJoin (author : Member)
| CmdLeave (author : Member)
| CmdOpen (title : string)
| CmdClose
| CmdPick (count : Z) (message : string) (draws : list nat)
| CmdResend (message : string)
| CmdList
| CmdClearPool
| CmdClearSelected.

Definition run (w : World) (gid : Z) (c : Command) : M unit :=
  match c with
  | CmdJoin author => join w gid author
  | CmdLeave author => leave w gid author
  | CmdOpen title => open w gid title
  | CmdClose => close w gid
  | CmdPick count message draws => pick w gid count message draws
  | CmdResend message => resend w gid message
  | CmdList => list_members w gid
  | CmdClearPool => clear_pool w gid
  | CmdClearSelected => clear_selected w gid
  end.

(** A sequence of commands, each tagged with its guild; a handler that
    raises ends its own command only, the cog lives on. *)
Fixpoint run_all (w : World) (cs : list (Z * Command)) (st : Cog)
  : Cog * list Event :=
  match cs with
  | [] => (st, [])
  | (gid, c) :: rest =>
      match run w gid c st with
      | (_, st1, ev1) =>
          match run_all w rest st1 with
          | (st2, ev2) => (st2, ev1 ++ ev2)
          end
      end
  end.

(** ** Views of one guild's state *)

(** The guild's pool: the stored one, or the closed empty pool that the
    first command for the guild would create. *)
Definition pool_of (st : Cog) (gid : Z) : MemberPool.t :=
  default (MemberPool.init gid) (_pools st !! gid).

(** The title every guild's replies and announcements are formatted with:
    the cog keeps one [_title] for all guilds. *)
Definition title_of (st : Cog) (gid : Z) : string := _title st.

(** The guild's selection batch, as [resend] reads it. *)
Definition selection_batch (st : Cog) (gid : Z) : Exn + Subscripted :=
  picked_users_getitem (_picked_users st) gid.

(** The guild's exclusion set, as [pick] reads it. *)
Definition exclusion_set (st : Cog) (gid : Z) : Exn + gset Member :=
  previously_selected_getitem (_previously_selected_users st) gid.

(** Direct messages attempted in a trace, in order. *)
Definition attempts (evs : list Event) : list (Member * string) :=
  omap (fun e => match e with EvDM u m => Some (u, m) | _ => None end) evs.

(** Per-recipient failure reports in a trace, in order. *)
Definition failure_reports (evs : list Event) : list Reply :=
  omap (fun e => match e with
                 | EvReply (ReplyDmForbidden u) => Some (ReplyDmForbidden u)
                 | EvReply (ReplyDmFailed u x) => Some (ReplyDmFailed u x)
                 | _ => None
                 end) evs.

(** Whether the platform rejects a direct message to [u], and the report
    [send_one] makes of it. *)
Definition failed (w : World) (u : Member) : bool :=
  match dm_send w u with
  | Delivered => false
  | _ => true
  end.

(** The recipients named in the failure reports of a trace, in order. *)
Definition reported (evs : list Event) : list Member :=
  omap (fun e => match e with
                 | EvReply (ReplyDmForbidden u) => Some u
                 | EvReply (ReplyDmFailed u _) => Some u
                 | _ => None
                 end) evs.

Definition report_for (w : World) (u : Member) : option Reply :=
  match dm_send w u with
  | Delivered => None
  | Forbidden => Some (ReplyDmForbidden u)
  | HTTPException e => Some (ReplyDmFailed u e)
  end.

(** ** Derived notions used in the statements *)

(** The trace of one iteration, and of the whole loop, as pure functions
    of the platform's answers. *)
Definition send_trace (w : World) (message : string) (u : Member)
  : list Event :=
  EvDM u message ::
  match report_for w u with
  | Some r => [EvReply r]
  | None => []
  end.

Definition dispatch_trace (w : World) (recipients : list Member)
  (message : string) : list Event :=
  recipients ≫= send_trace w message.

(** The cog with the pool object of guild [gid] holding [p]. *)
Definition with_pool (st : Cog) (gid : Z) (p : MemberPool.t) : Cog :=
  {| _pools := <[gid := p]> (_pools st); _title := _title st;
     _picked_users := _picked_users st;
     _previously_selected_users := _previously_selected_users st |}.

(** The title after [open]: Python's [if title: self._title = title]. *)
Definition opened_title (old title : string) : string :=
  if bool_decide (title = EmptyString) then old else title.

(** [pick] once [pool.pick] has returned [batch] and the exclusion step is
    over: the announcement goes out, and the call of [self.resend] at
    line 151 raises [TypeError]. *)
Definition pick_tail (w : World) (gid : Z) (batch : list Member) (st : Cog)
  : Res unit * Cog * list Event :=
  (Raise TypeError,
   st,
   [EvChannel gid (EmbedPicked (_title st) (MemberPool.size (pool_of st gid))
                               (display_name w <$> batch))]).

(** ** Sample data *)

Definition alice : Member := {| member_id := 10 |}.
Definition bob : Member := {| member_id := 11 |}.
Definition carol : Member := {| member_id := 12 |}.

(** A guild id. *)
Definition guild : Z := 1000.
Definition other_guild : Z := 2000.

(** No required roles, no exclusion tracking; bob's direct messages are
    closed. *)
Definition world_plain : World :=
  {| get_guild_config := fun _ => {| player_roles := []; exclude_selected := false |};
     member_roles := fun _ => [];
     display_name := fun m =>
       if bool_decide (m = alice) then "alice"%string
       else if bool_decide (m = bob) then "bob"%string else "carol"%string;
     dm_send := fun m => if bool_decide (m = bob) then Forbidden else Delivered |}.

(** Exclusion tracking enabled for every guild. *)
Definition world_excluding : World :=
  {| get_guild_config := fun _ => {| player_roles := []; exclude_selected := true |};
     member_roles := fun _ => [];
     display_name := display_name world_plain;
     dm_send := fun _ => Delivered |}.

(** Role 7 is required and nobody holds it; no exclusion tracking. *)
Definition world_roles : World :=
  {| get_guild_config := fun _ => {| player_roles := [7]; exclude_selected := false |};
     member_roles := fun _ => [];
     display_name := display_name world_plain;
     dm_send := fun _ => Delivered |}.

(** The guild's pool is open and holds alice, bob and carol. *)
Definition three_joined : Cog :=
  (run_all world_plain
     [(guild, CmdOpen "Trivia"); (guild, CmdJoin alice);
      (guild, CmdJoin bob); (guild, CmdJoin carol)] init).1.

(** A cog whose [_picked_users] maps the guild to a batch, as the
    annotation [Dict[int, List[Member]]] describes it. *)
Definition with_batch : Cog :=
  {| _pools := ∅; _title := "Trivia";
     _picked_users := PUDict {[ guild := [alice; bob; carol] ]};
     _previously_selected_users := PSDict ∅ |}.

(** A cog whose [_previously_selected_users] is a set holding alice, and
    whose pool for the guild is open. *)
Definition alice_selected : Cog :=
  {| _pools := {[ guild := MemberPool.open (MemberPool.init guild) ]};
     _title := "Trivia";
     _picked_users := PUDict ∅;
     _previously_selected_users := PSSet {[ alice ]} |}.

(** Guild isolation, for one command: nothing that guild [g'] can observe
    changes when the command is run for guild [g]. *)
Definition guild_isolated (w : World) (g g' : Z) (c : Command) (st : Cog)
  : Prop :=
  pool_of (state_of (run w g c st)) g' = pool_of st g'
  ∧ title_of (state_of (run w g c st)) g' = title_of st g'
  ∧ exclusion_set (state_of (run w g c st)) g' = exclusion_set st g'
  ∧ selection_batch (state_of (run w g c st)) g' = selection_batch st g'.

(** The cog after [pick(2, "gg")] on the pool of alice, bob and carol. *)
Definition after_pick : Cog :=
  state_of (pick world_plain guild 2 "gg" [5; 7]%nat three_joined).

(** The cog after open and a join by alice, in a guild that has exclusion
    tracking enabled. *)
Definition joined_excluding : Cog :=
  (run_all world_excluding
     [(guild, CmdOpen "Trivia"); (guild, CmdJoin alice)] init).1.

(** The same cog after [pick(1, "gg")]. *)
Definition picked_excluding : Cog :=
  state_of (pick world_excluding guild 1 "gg" [0]%nat joined_excluding).

(** [_previously_selected_users] never holds a member: nothing ever puts
    a key into the dict, and [clear_selected] leaves an empty set. *)
Definition nothing_selected (st : Cog) : Prop :=
  _previously_selected_users st = PSDict ∅
  ∨ _previously_selected_users st = PSSet ∅.

(** ** Notions for whole runs of the cog *)

(** The title after a sequence of commands: only [open] assigns
    [self._title], and it does so whatever the guild. *)
Definition latest_title (cs : list (Z * Command)) (t0 : string) : string :=
  foldl (fun t gc => match gc.2 with
                     | CmdOpen title => opened_title t title
                     | _ => t
                     end) t0 cs.

(** [_picked_users] holds no batch [resend] could read: it is the empty
    dict of [__init__] or a list left by [pick]. *)
Definition no_batch (st : Cog) : Prop :=
  _picked_users st = PUDict ∅ ∨ ∃ l, _picked_users st = PUList l.

(** Events of the loop in [resend]: a send or a per-recipient report. *)
Definition is_delivery_event (e : Event) : bool :=
  match e with
  | EvDM _ _ => true
  | EvReply (ReplyDmForbidden _) => true
  | EvReply (ReplyDmFailed _ _) => true
  | _ => false
  end.

(** ** Configuration: [dingomata/config/config.py] *)
Module Config.

(** [discord_slash.model.SlashCommandPermissionType] *)
Inductive SlashCommandPermissionType :=
| ROLE
| USER.

(** The dict built by [create_permission(id, id_type, permission)]. *)
Record Permission := {
  perm_id : Z;
  perm_type : SlashCommandPermissionType;
  permission : bool
}.

Definition create_permission (id : Z) (id_type : SlashCommandPermissionType)
  (allow : bool) : Permission :=
  {| perm_id := id; perm_type := id_type; permission := allow |}.

(** [GuildConfig] (lines 24-49): the fields its own methods and
    [get_command_guilds] read.  The per-feature sub-configurations are
    plain data that no function of the file looks into. *)
Record GuildConfig := {
  mod_roles : gset Z;
  mod_users : gset Z;
  commands : gmap string bool
}.

(** [GuildConfig.mod_permissions] (lines 46-49) *)
Definition mod_permissions (c : GuildConfig) : list Permission :=
  ((fun role => create_permission role ROLE true) <$> elements (mod_roles c))
  ++ ((fun role => create_permission role USER true) <$> elements (mod_users c)).

(** [ServiceConfig.mod_permissions] (lines 79-81) *)
Definition service_mod_permissions (servers : gmap Z GuildConfig)
  : gmap Z (list Permission) :=
  mod_permissions <$> servers.

(** [config.commands.get(command, default)] *)
Definition command_enabled (c : GuildConfig) (command : string) (dflt : bool)
  : bool :=
  default dflt (commands c !! command).

(** [ServiceConfig.get_command_guilds] (lines 83-84).  [servers] is a dict
    keyed by guild id.  The list comes out in the order the map lists its
    keys, which need not be the order in which the dict was filled:
    what is proved of it speaks of its elements, not of their order. *)
Definition get_command_guilds (servers : gmap Z GuildConfig)
  (command : string) (dflt : bool) : list Z :=
  (filter (fun gc => command_enabled gc.2 command dflt = true)
          (map_to_list servers)).*1.

(** [s.replace(old, new)] for a non-empty [old]: the occurrences of [old]
    are found from the left and do not overlap.  [skip] counts the
    characters of a found occurrence still to be passed over. *)
Fixpoint replace_skip (skip : nat) (old new s : string) : string :=
  match s with
  | EmptyString => EmptyString
  | String c s' =>
      match skip with
      | S k => replace_skip k old new s'
      | O =>
          if String.prefix old s
          then (new ++ replace_skip (String.length old - 1) old new s')%string
          else String c (replace_skip 0 old new s')
      end
  end.

Definition py_replace (old new s : string) : string :=
  replace_skip 0 old new s.

(** Whether [old] occurs somewhere in [s]. *)
Fixpoint occurs (old s : string) : bool :=
  String.prefix old s
  || match s with
     | EmptyString => false
     | String _ s' => occurs old s'
     end.

(** [ServiceConfig.translate_postgres] (lines 62-66): a pre-validator, so
    the value is anything; [inl] is a [str], [inr] a value of another
    type. *)
Definition translate_postgres {A} (v : string + A) : string + A :=
  match v with
  | inl s =>
      if String.prefix "postgres://" s
      then inl (py_replace "postgres://" "postgresql+asyncpg://" s)
      else inl s
  | inr a => inr a
  end.

End Config.

(** [GameCodeSenderCommands._PLAYER_PERMS] (lines 20-24): [guilds] is
    [get_guilds()], [roles guild] the guild's configured [player_roles],
    in which [None] may stand among the role ids.  A later guild of the
    same id overwrites an earlier one. *)
Definition _PLAYER_PERMS (guilds : list Z) (roles : Z -> list (option Z))
  : gmap Z (list Config.Permission) :=
  foldl (fun perms guild =>
           <[guild := (fun role => Config.create_permission role Config.ROLE true)
                        <$> omap id (roles guild)]> perms)
        ∅
        (filter (fun guild => None ∉ roles guild) guilds).

(** A guild that allows the command, one that forbids it, one that says
    nothing. *)
Definition sample_servers : gmap Z Config.GuildConfig :=
  {[ 1000 := {| Config.mod_roles := {[ 5 ]}; Config.mod_users := {[ 6; 7 ]};
                Config.commands := {[ "game"%string := true ]} |};
     2000 := {| Config.mod_roles := ∅; Config.mod_users := ∅;
                Config.commands := {[ "game"%string := false ]} |};
     3000 := {| Config.mod_roles := ∅; Config.mod_users := ∅;
                Config.commands := ∅ |} ]}.

(** * Properties *)

(** ** The draw *)

Lemma sample_length (population : list Member) (k : nat) (draws : list nat) :
  length (MemberPool.sample population k draws)
  = Nat.min k (length population).
Proof.
  revert population draws.
  induction k as [|k IH]; intros population draws; simpl; [done|].
  destruct population as [|x xs]; [done|].
  set (i := (hd 0%nat draws mod length (x :: xs))%nat).
  assert (Hi : (i < length (x :: xs))%nat).
  { apply Nat.mod_upper_bound. simpl. lia. }
  destruct (lookup_lt_is_Some_2 (x :: xs) i Hi) as [m Hm].
  rewrite Hm. simpl. rewrite IH, length_delete by eauto.
  simpl. lia.
Qed.

Lemma sample_elem_of (population : list Member) (k : nat) (draws : list nat)
  (m : Member) :
  m ∈ MemberPool.sample population k draws → m ∈ population.
Proof.
  revert population draws.
  induction k as [|k IH]; intros population draws; simpl.
  - by intros ?%elem_of_nil.
  - destruct population as [|x xs]; [by intros ?%elem_of_nil|].
    destruct ((x :: xs) !! _) as [y|] eqn:Hy; [|by intros ?%elem_of_nil].
    intros [->|Hin]%elem_of_cons.
    + by eapply list_elem_of_lookup_2.
    + eapply list_elem_of_delete_inv, IH, Hin.
Qed.

Lemma sample_NoDup (population : list Member) (k : nat) (draws : list nat) :
  NoDup population → NoDup (MemberPool.sample population k draws).
Proof.
  revert population draws.
  induction k as [|k IH]; intros population draws Hnd; simpl.
  - constructor.
  - destruct population as [|x xs]; [constructor|].
    destruct ((x :: xs) !! _) as [y|] eqn:Hy; [|constructor].
    pose proof (delete_Permutation _ _ _ Hy) as Hp.
    rewrite Hp in Hnd. apply NoDup_cons in Hnd as [Hy' Hnd'].
    apply NoDup_cons. split; [|by apply IH].
    intros Hin%sample_elem_of. contradiction.
Qed.

(** What [pool.pick] returns when it returns: at most [min(count, size())]
    members (in fact exactly that many), pairwise distinct, all of them in
    the pool. *)
Lemma pool_pick_batch (p : MemberPool.t) (count : Z) (draws : list nat)
  (batch : list Member) :
  (MemberPool.pick p count draws).2 = inr batch →
  length batch = Nat.min (Z.to_nat count) (MemberPool.size p)
  ∧ NoDup batch
  ∧ ∀ m, m ∈ batch → m ∈ MemberPool.members p.
Proof.
  unfold MemberPool.pick. repeat case_match; simpl; try done.
  intros [= <-]. split_and!.
  - by rewrite sample_length.
  - apply sample_NoDup, NoDup_elements.
  - intros m Hm%sample_elem_of. by apply elem_of_elements in Hm.
Qed.

(** [pool.pick] returns for a positive count on a non-empty pool, and
    raises [EmptyPoolError] on an empty one. *)
Lemma pool_pick_total (p : MemberPool.t) (count : Z) (draws : list nat) :
  0 < count →
  (MemberPool.size p = 0%nat
   ∧ (MemberPool.pick p count draws).2 = inl EmptyPoolError)
  ∨ (MemberPool.size p ≠ 0%nat
     ∧ ∃ batch, (MemberPool.pick p count draws).2 = inr batch).
Proof.
  intros Hc. unfold MemberPool.pick.
  destruct (count <=? 0) eqn:E; [lia|].
  destruct (MemberPool.size p =? 0)%nat eqn:E'; simpl.
  - left. split; [|done]. by apply Nat.eqb_eq.
  - right. split; [|eauto]. by apply Nat.eqb_neq.
Qed.

Lemma pool_pick_closed (p : MemberPool.t) (count : Z) (draws : list nat) :
  MemberPool.is_open (MemberPool.pick p count draws).1 = false.
Proof. unfold MemberPool.pick. by repeat case_match. Qed.

Lemma pool_pick_members (p : MemberPool.t) (count : Z) (draws : list nat) :
  MemberPool.members (MemberPool.pick p count draws).1 = MemberPool.members p.
Proof. unfold MemberPool.pick. by repeat case_match. Qed.

(** ** The fan-out *)

Lemma send_one_spec (w : World) (message : string) (u : Member) (st : Cog) :
  send_one w message u st = (Ok tt, st, send_trace w message u).
Proof.
  unfold send_one, send_trace, report_for, bind, emit, reply, emit, ret.
  by destruct (dm_send w u).
Qed.

(** The loop never raises and never touches the cog: whatever the
    platform answers for one recipient, the rest of the list is served. *)
Lemma dispatch_spec (w : World) (recipients : list Member) (message : string)
  (st : Cog) :
  dispatch w recipients message st
  = (Ok tt, st, dispatch_trace w recipients message).
Proof.
  induction recipients as [|u rest IH]; [done|].
  simpl. unfold bind. by rewrite send_one_spec, IH.
Qed.

Lemma attempts_app (e1 e2 : list Event) :
  attempts (e1 ++ e2) = attempts e1 ++ attempts e2.
Proof. apply omap_app. Qed.

Lemma failure_reports_app (e1 e2 : list Event) :
  failure_reports (e1 ++ e2) = failure_reports e1 ++ failure_reports e2.
Proof. apply omap_app. Qed.

Lemma attempts_dispatch_trace (w : World) (recipients : list Member)
  (message : string) :
  attempts (dispatch_trace w recipients message)
  = (fun u => (u, message)) <$> recipients.
Proof.
  induction recipients as [|u rest IH]; [done|].
  unfold dispatch_trace in *. rewrite fmap_cons, bind_cons, attempts_app, IH.
  unfold send_trace. by destruct (report_for w u) as [[]|].
Qed.

Lemma failure_reports_dispatch_trace (w : World) (recipients : list Member)
  (message : string) :
  failure_reports (dispatch_trace w recipients message)
  = omap (report_for w) recipients.
Proof.
  induction recipients as [|u rest IH]; [done|].
  unfold dispatch_trace in *. rewrite bind_cons, failure_reports_app, IH.
  unfold send_trace, report_for. simpl. by destruct (dm_send w u).
Qed.

Lemma report_for_failed (w : World) (u : Member) :
  is_Some (report_for w u) ↔ failed w u = true.
Proof.
  unfold report_for, failed.
  destruct (dm_send w u); split; try done; by intros [? [=]].
Qed.

Lemma length_omap_report_for (w : World) (recipients : list Member) :
  length (omap (report_for w) recipients)
  = length (filter (fun u => failed w u = true) recipients).
Proof.
  induction recipients as [|u rest IH]; [done|].
  rewrite filter_cons. unfold omap in *. simpl.
  destruct (report_for w u) as [r|] eqn:E;
    case_decide as Hf; simpl; rewrite ?IH; try done.
  - exfalso. apply Hf, report_for_failed. rewrite E. eauto.
  - apply report_for_failed in Hf as [? Hx]. by rewrite E in Hx.
Qed.

Lemma reported_dispatch_trace (w : World) (recipients : list Member)
  (message : string) :
  reported (dispatch_trace w recipients message)
  = filter (fun u => failed w u = true) recipients.
Proof.
  induction recipients as [|u rest IH]; [done|].
  unfold dispatch_trace, reported in *.
  rewrite bind_cons, omap_app, IH, filter_cons.
  unfold send_trace, report_for, failed.
  destruct (dm_send w u); by case_decide.
Qed.

(** [resend], case by case on what [self._picked_users[guild_id]] is. *)
Lemma resend_spec (w : World) (gid : Z) (message : string) (st : Cog) :
  resend w gid message st =
  match picked_users_getitem (_picked_users st) gid with
  | inl e => (Raise e, st, [])
  | inr (SubMember _) => (Raise TypeError, st, [])
  | inr (SubList l) =>
      (Ok tt, st, dispatch_trace w l message ++ [EvReply ReplyAllDone])
  end.
Proof.
  unfold resend, bind, get, lift_exn, raise, ret.
  destruct (picked_users_getitem _ _) as [e|[l|m]]; simpl; try done.
  by rewrite dispatch_spec.
Qed.

Lemma resend_state (w : World) (gid : Z) (message : string) (st : Cog) :
  state_of (resend w gid message st) = st.
Proof. rewrite resend_spec. by repeat case_match. Qed.

(** ** Handlers as equations *)

Lemma pool_of_with_pool (st : Cog) (gid : Z) (p : MemberPool.t) :
  pool_of (with_pool st gid p) gid = p.
Proof. unfold pool_of, with_pool. simpl. by rewrite lookup_insert_eq. Qed.

Lemma pools_with_pool_ne (st : Cog) (gid gid' : Z) (p : MemberPool.t) :
  gid ≠ gid' → _pools (with_pool st gid p) !! gid' = _pools st !! gid'.
Proof. intros. unfold with_pool. simpl. by rewrite lookup_insert_ne. Qed.

Lemma with_pool_with_pool (st : Cog) (gid : Z) (p q : MemberPool.t) :
  with_pool (with_pool st gid p) gid q = with_pool st gid q.
Proof. unfold with_pool. simpl. by rewrite insert_insert_eq. Qed.

Lemma pool_for_guild_spec (gid : Z) (st : Cog) :
  _pool_for_guild gid st
  = (Ok (pool_of st gid), with_pool st gid (pool_of st gid), []).
Proof.
  unfold _pool_for_guild, pool_of, with_pool, set_pools.
  destruct (_pools st !! gid) as [p|] eqn:E; simpl; [|done].
  rewrite insert_id by done. by destruct st.
Qed.

Lemma store_pool_spec (gid : Z) (p : MemberPool.t) (st : Cog) :
  store_pool gid p st = (Ok tt, with_pool st gid p, []).
Proof. done. Qed.

Lemma bind_pool_for_guild {B} (gid : Z) (k : MemberPool.t → M B) (st : Cog) :
  bind (_pool_for_guild gid) k st
  = k (pool_of st gid) (with_pool st gid (pool_of st gid)).
Proof.
  unfold bind. rewrite pool_for_guild_spec.
  by destruct (k _ _) as [[r st2] ev2].
Qed.

Ltac handler_unfold :=
  rewrite ?bind_pool_for_guild;
  repeat first
    [ progress rewrite ?store_pool_spec, ?with_pool_with_pool
    | progress unfold bind, get, reply, emit, ret, raise, lift_exn,
                      set_title, set_picked_users,
                      set_previously_selected_users
    | progress simpl ];
  unfold with_pool, store_pool, set_pools; simpl;
  rewrite ?insert_insert_eq.

Lemma join_spec (w : World) (gid : Z) (author : Member) (st : Cog) :
  join w gid author st =
  let p := pool_of st gid in
  if MemberPool.is_open p then
    if previously_selected_contains author (_previously_selected_users st)
    then (Ok tt, with_pool st gid p, [EvReply ReplyRecentlySelected])
    else
      match MemberPool.add_member (player_roles (get_guild_config w gid))
                                  (member_roles w author) p author with
      | inr p' => (Ok tt, with_pool st gid p', [EvReply (ReplyJoined (_title st))])
      | inl reason =>
          (Ok tt, with_pool st gid p, [EvReply (ReplyRoleIneligible reason)])
      end
  else (Ok tt, with_pool st gid p, [EvReply ReplyPoolClosed]).
Proof.
  unfold join. handler_unfold.
  destruct (MemberPool.is_open _); [|done].
  destruct (previously_selected_contains _ _); [done|].
  destruct (MemberPool.add_member _ _ _ _); [done|].
  handler_unfold. done.
Qed.

Lemma leave_spec (w : World) (gid : Z) (author : Member) (st : Cog) :
  leave w gid author st =
  let p := pool_of st gid in
  if MemberPool.is_open p
  then (Ok tt, with_pool st gid (MemberPool.remove_member p author),
        [EvReply (ReplyLeft (_title st))])
  else (Ok tt, with_pool st gid p, [EvReply ReplyLeaveClosed]).
Proof.
  unfold leave. handler_unfold.
  destruct (MemberPool.is_open _); [|done].
  handler_unfold. done.
Qed.

Lemma open_spec (w : World) (gid : Z) (title : string) (st : Cog) :
  open w gid title st =
  (Ok tt,
   {| _pools := <[gid := MemberPool.open (pool_of st gid)]> (_pools st);
      _title := opened_title (_title st) title;
      _picked_users := _picked_users st;
      _previously_selected_users := _previously_selected_users st |},
   [EvChannel gid (EmbedOpened title);
    EvReply (ReplyOpened (opened_title (_title st) title))]).
Proof.
  unfold open, opened_title. handler_unfold.
  case_bool_decide; handler_unfold; done.
Qed.

Lemma close_spec (w : World) (gid : Z) (st : Cog) :
  close w gid st =
  (Ok tt, with_pool st gid (MemberPool.close (pool_of st gid)),
   [EvChannel gid (EmbedClosed (_title st)
                     (MemberPool.size (MemberPool.close (pool_of st gid))));
    EvReply ReplyClosed]).
Proof. unfold close. handler_unfold. done. Qed.

Lemma clear_pool_spec (w : World) (gid : Z) (st : Cog) :
  clear_pool w gid st =
  (Ok tt, with_pool st gid (MemberPool.clear (pool_of st gid)),
   [EvReply ReplyCleared]).
Proof. unfold clear_pool. handler_unfold. done. Qed.

Lemma list_members_spec (w : World) (gid : Z) (st : Cog) :
  list_members w gid st =
  (Ok tt, with_pool st gid (pool_of st gid),
   [EvReply (ReplyMembers
      (display_name w <$> elements (MemberPool.members (pool_of st gid))))]).
Proof. unfold list_members. handler_unfold. done. Qed.

Lemma clear_selected_spec (w : World) (gid : Z) (st : Cog) :
  clear_selected w gid st =
  (Ok tt,
   {| _pools := _pools st; _title := _title st;
      _picked_users := _picked_users st;
      _previously_selected_users := PSSet ∅ |},
   [EvReply ReplyCleared]).
Proof. done. Qed.

Lemma pick_spec (w : World) (gid : Z) (count : Z) (message : string)
  (draws : list nat) (st : Cog) :
  pick w gid count message draws st =
  let p := pool_of st gid in
  let p' := (MemberPool.pick p count draws).1 in
  match (MemberPool.pick p count draws).2 with
  | inl e => (Raise e, with_pool st gid p', [])
  | inr batch =>
      let st1 := {| _pools := <[gid := p']> (_pools st); _title := _title st;
                    _picked_users := PUList batch;
                    _previously_selected_users := _previously_selected_users st |} in
      if exclude_selected (get_guild_config w gid) then
        match _previously_selected_users st with
        | PSDict d =>
            match d !! gid with
            | Some s =>
                pick_tail w gid batch
                  {| _pools := <[gid := p']> (_pools st); _title := _title st;
                     _picked_users := PUList batch;
                     _previously_selected_users :=
                       PSDict (<[gid := s ∪ list_to_set batch]> d) |}
            | None => (Raise KeyError, st1, [])
            end
        | PSSet _ => (Raise TypeError, st1, [])
        end
      else pick_tail w gid batch st1
  end.
Proof.
  unfold pick, pool_pick, bind. rewrite pool_for_guild_spec.
  set (p := pool_of st gid).
  destruct (MemberPool.pick p count draws) as [p' [e|batch]] eqn:E;
    cbn [fst snd]; rewrite store_pool_spec; unfold lift_exn, ret, raise;
    rewrite with_pool_with_pool; [done|].
  unfold set_picked_users. cbn [_pools _title _previously_selected_users with_pool].
  assert (Htail : ∀ stX : Cog,
    _pools stX !! gid = Some p' →
    _pool_for_guild gid stX = (Ok p', stX, []) ∧ pool_of stX gid = p').
  { intros stX Hp.
    assert (Hpo : pool_of stX gid = p') by (unfold pool_of; by rewrite Hp).
    split; [|done].
    rewrite pool_for_guild_spec, Hpo. unfold with_pool.
    rewrite insert_id by done. by destruct stX. }
  destruct (exclude_selected (get_guild_config w gid)).
  - unfold previously_selected_update, bind, get.
    cbn [_previously_selected_users].
    destruct (_previously_selected_users st) as [d|s] eqn:Eps;
      [destruct (d !! gid) as [s|] eqn:Ed|]; unfold raise; try done.
    unfold set_previously_selected_users.
    cbn [_pools _title _picked_users _previously_selected_users].
    match goal with
    | |- context [_pool_for_guild gid ?stX] =>
        destruct (Htail stX) as (-> & Hpo);
          [simpl; by rewrite lookup_insert_eq|]
    end.
    unfold get, emit, call_resend_object, raise, pick_tail.
    by rewrite Hpo.
  - match goal with
    | |- context [_pool_for_guild gid ?stX] =>
        destruct (Htail stX) as (-> & Hpo);
          [simpl; by rewrite lookup_insert_eq|]
    end.
    unfold get, emit, call_resend_object, raise, pick_tail.
    by rewrite Hpo.
Qed.

(** ** C1: the result of a pick *)

(** C1. For every guild and every positive count, the result of
    [pick(count)] is a sequence of at most [min(count, size())] members
    without duplicates, each of them a member of the guild's pool at the
    time of the draw.  (On an empty pool there is no result: the pool
    raises [EmptyPoolError] and [_picked_users] keeps its value.) *)
Theorem pick_result_bounded_distinct_from_pool
  (w : World) (gid : Z) (count : Z) (message : string) (draws : list nat)
  (st : Cog) :
  0 < count →
  (MemberPool.size (pool_of st gid) = 0%nat
   ∧ result_of (pick w gid count message draws st) = Raise EmptyPoolError
   ∧ _picked_users (state_of (pick w gid count message draws st))
     = _picked_users st)
  ∨ (∃ batch : list Member,
       (MemberPool.pick (pool_of st gid) count draws).2 = inr batch
       ∧ _picked_users (state_of (pick w gid count message draws st))
         = PUList batch
       ∧ Z.of_nat (length batch)
         <= Z.min count (Z.of_nat (MemberPool.size (pool_of st gid)))
       ∧ NoDup batch
       ∧ ∀ m, m ∈ batch → m ∈ MemberPool.members (pool_of st gid)).
Proof.
  intros Hc. rewrite pick_spec. cbn zeta.
  destruct (pool_pick_total (pool_of st gid) count draws Hc)
    as [[Hz He]|[Hnz [batch Hb]]].
  - left. by rewrite He.
  - right. exists batch. rewrite Hb.
    destruct (pool_pick_batch _ _ _ _ Hb) as (Hlen & Hnd & Hin).
    split_and!; [done| |lia|done|done].
    unfold pick_tail.
    destruct (exclude_selected _); [|done].
    destruct (_previously_selected_users st) as [d|s]; [|done].
    by destruct (d !! gid).
Qed.

(** The pool of alice, bob and carol, two members requested. *)
Lemma pick_result_bounded_distinct_from_pool_witness :
  0 < 2
  ∧ ((MemberPool.size (pool_of three_joined guild) = 0%nat
      ∧ result_of (pick world_plain guild 2 "gg" [5; 7]%nat three_joined)
        = Raise EmptyPoolError
      ∧ _picked_users
          (state_of (pick world_plain guild 2 "gg" [5; 7]%nat three_joined))
        = _picked_users three_joined)
     ∨ (∃ batch : list Member,
          (MemberPool.pick (pool_of three_joined guild) 2 [5; 7]%nat).2
          = inr batch
          ∧ _picked_users
              (state_of (pick world_plain guild 2 "gg" [5; 7]%nat three_joined))
            = PUList batch
          ∧ Z.of_nat (length batch)
            <= Z.min 2 (Z.of_nat (MemberPool.size (pool_of three_joined guild)))
          ∧ NoDup batch
          ∧ ∀ m, m ∈ batch
                 → m ∈ MemberPool.members (pool_of three_joined guild))).
Proof.
  split; [lia|].
  apply (pick_result_bounded_distinct_from_pool
           world_plain guild 2 "gg" [5; 7]%nat three_joined).
  lia.
Defined.

(** The draw of the sample scenario: two of the three members. *)
Example pick_two_of_three :
  _picked_users (state_of (pick world_plain guild 2 "gg" [5; 7]%nat three_joined))
  = PUList [carol; alice].
Proof. vm_compute. reflexivity. Qed.

(** ** C6: a pick closes the pool *)

(** C6. After any [pick] for a guild the guild's pool is Closed, whatever
    its state before and however the handler ends. *)
Theorem pick_closes_pool
  (w : World) (gid : Z) (count : Z) (message : string) (draws : list nat)
  (st : Cog) :
  MemberPool.is_open
    (pool_of (state_of (pick w gid count message draws st)) gid) = false.
Proof.
  assert (Hpools :
    _pools (state_of (pick w gid count message draws st))
    = <[gid := (MemberPool.pick (pool_of st gid) count draws).1]> (_pools st)).
  { rewrite pick_spec. cbn zeta. unfold pick_tail.
    repeat case_match; done. }
  unfold pool_of at 1. rewrite Hpools, lookup_insert_eq. simpl.
  apply pool_pick_closed.
Qed.

(** ** C4: joining a closed pool *)

(** C4. For every member, [join] while the guild's pool is Closed is
    answered with the pool-closed message and leaves the pool's membership
    (and its state) as it was. *)
Theorem join_closed_rejected (w : World) (gid : Z) (m : Member) (st : Cog) :
  MemberPool.is_open (pool_of st gid) = false →
  result_of (join w gid m st) = Ok tt
  ∧ events_of (join w gid m st) = [EvReply ReplyPoolClosed]
  ∧ MemberPool.members (pool_of (state_of (join w gid m st)) gid)
    = MemberPool.members (pool_of st gid)
  ∧ MemberPool.is_open (pool_of (state_of (join w gid m st)) gid) = false.
Proof.
  intros Hclosed. rewrite join_spec. cbn zeta. rewrite Hclosed.
  unfold result_of, events_of, state_of. simpl.
  by rewrite pool_of_with_pool.
Qed.

(** A fresh cog: the guild's pool is created closed. *)
Lemma join_closed_rejected_witness :
  MemberPool.is_open (pool_of init guild) = false
  ∧ result_of (join world_plain guild alice init) = Ok tt
  ∧ events_of (join world_plain guild alice init) = [EvReply ReplyPoolClosed]
  ∧ MemberPool.members (pool_of (state_of (join world_plain guild alice init)) guild)
    = MemberPool.members (pool_of init guild)
  ∧ MemberPool.is_open (pool_of (state_of (join world_plain guild alice init)) guild)
    = false.
Proof.
  split; [reflexivity|].
  apply (join_closed_rejected world_plain guild alice init).
  reflexivity.
Defined.

(** ** C10: order of the admission checks *)

(** C10. In [join] on an open pool the recently-selected test comes first
    and does not consult the configuration: whatever the guild's
    [exclude_selected] and required roles are, a member found in
    [_previously_selected_users] gets the recently-selected reply and
    nothing else, in particular no role-ineligible reply; the pool is not
    touched. *)
Theorem join_recently_selected_first
  (w : World) (gid : Z) (author : Member) (st : Cog) :
  MemberPool.is_open (pool_of st gid) = true →
  previously_selected_contains author (_previously_selected_users st) = true →
  join w gid author st
  = (Ok tt, with_pool st gid (pool_of st gid), [EvReply ReplyRecentlySelected])
  ∧ ∀ reason, EvReply (ReplyRoleIneligible reason)
               ∉ events_of (join w gid author st).
Proof.
  intros Hopen Hsel. rewrite join_spec. cbn zeta. rewrite Hopen, Hsel.
  split; [done|].
  intros reason Hin. unfold events_of in Hin. simpl in Hin.
  apply elem_of_cons in Hin as [Heq|Hin]; [discriminate|].
  by apply elem_of_nil in Hin.
Qed.

(** Alice is in the set and lacks the required role; exclusion tracking is
    off. *)
Lemma join_recently_selected_first_witness :
  MemberPool.is_open (pool_of alice_selected guild) = true
  ∧ previously_selected_contains alice
      (_previously_selected_users alice_selected) = true
  ∧ join world_roles guild alice alice_selected
    = (Ok tt, with_pool alice_selected guild (pool_of alice_selected guild),
       [EvReply ReplyRecentlySelected])
  ∧ ∀ reason, EvReply (ReplyRoleIneligible reason)
               ∉ events_of (join world_roles guild alice alice_selected).
Proof.
  split; [reflexivity|]. split; [reflexivity|].
  apply (join_recently_selected_first world_roles guild alice alice_selected);
    reflexivity.
Defined.

(** Without the entry in [_previously_selected_users] the same request is
    answered by the role check. *)
Example join_role_ineligible :
  events_of (join world_roles guild alice
               (with_pool init guild (MemberPool.open (MemberPool.init guild))))
  = [EvReply (ReplyRoleIneligible
                "You do not have the required roles to join this pool.")].
Proof. vm_compute. reflexivity. Qed.

(** ** C8: opening a pool *)

(** C8. [open] always returns normally and leaves the guild's pool Open
    with the membership it had; [_previously_selected_users] and
    [_picked_users] are not touched; the title is replaced exactly when
    the supplied title is non-empty. *)
Theorem open_opens_and_keeps (w : World) (gid : Z) (title : string) (st : Cog) :
  result_of (open w gid title st) = Ok tt
  ∧ MemberPool.is_open (pool_of (state_of (open w gid title st)) gid) = true
  ∧ MemberPool.members (pool_of (state_of (open w gid title st)) gid)
    = MemberPool.members (pool_of st gid)
  ∧ _previously_selected_users (state_of (open w gid title st))
    = _previously_selected_users st
  ∧ _picked_users (state_of (open w gid title st)) = _picked_users st
  ∧ _title (state_of (open w gid title st))
    = (if bool_decide (title = EmptyString) then _title st else title).
Proof.
  assert (Hp : pool_of (state_of (open w gid title st)) gid
               = MemberPool.open (pool_of st gid)).
  { rewrite open_spec. unfold pool_of at 1, state_of. simpl.
    by rewrite lookup_insert_eq. }
  rewrite Hp. rewrite open_spec. unfold result_of, state_of, opened_title.
  simpl. by split_and!.
Qed.

Example open_replaces_title :
  _title (state_of (open world_plain guild "Bingo" three_joined)) = "Bingo"%string
  ∧ _title (state_of (open world_plain guild EmptyString three_joined)) = "Trivia"%string.
Proof. split; vm_compute; reflexivity. Qed.

(** ** C5: failure isolation in the fan-out *)

(** C5. The delivery loop attempts every recipient in turn, whatever the
    platform answers for the others, reports exactly the recipients whose
    delivery failed, each with its reason, and never raises; [resend] runs
    this loop over the list it finds under the guild's key and then
    replies that it is done. *)
Theorem dispatch_attempts_all_reports_failures
  (w : World) (gid : Z) (recipients : list Member) (message : string)
  (st : Cog) :
  selection_batch st gid = inr (SubList recipients) →
  (result_of (dispatch w recipients message st) = Ok tt
   ∧ state_of (dispatch w recipients message st) = st
   ∧ attempts (events_of (dispatch w recipients message st))
     = (fun u => (u, message)) <$> recipients
   ∧ failure_reports (events_of (dispatch w recipients message st))
     = omap (report_for w) recipients
   ∧ reported (events_of (dispatch w recipients message st))
     = filter (fun u => failed w u = true) recipients
   ∧ length (failure_reports (events_of (dispatch w recipients message st)))
     = length (filter (fun u => failed w u = true) recipients))
  ∧ resend w gid message st
    = (Ok tt, st,
       events_of (dispatch w recipients message st) ++ [EvReply ReplyAllDone]).
Proof.
  intros Hbatch. rewrite dispatch_spec.
  unfold result_of, state_of, events_of. simpl.
  rewrite attempts_dispatch_trace, failure_reports_dispatch_trace,
    reported_dispatch_trace, length_omap_report_for.
  split; [done|].
  rewrite resend_spec. unfold selection_batch in Hbatch. by rewrite Hbatch.
Qed.

(** Three recipients, of whom bob cannot be reached. *)
Lemma dispatch_attempts_all_reports_failures_witness :
  selection_batch with_batch guild = inr (SubList [alice; bob; carol])
  ∧ (result_of (dispatch world_plain [alice; bob; carol] "gg" with_batch) = Ok tt
     ∧ state_of (dispatch world_plain [alice; bob; carol] "gg" with_batch)
       = with_batch
     ∧ attempts (events_of (dispatch world_plain [alice; bob; carol] "gg" with_batch))
       = (fun u => (u, "gg"%string)) <$> [alice; bob; carol]
     ∧ failure_reports
         (events_of (dispatch world_plain [alice; bob; carol] "gg" with_batch))
       = omap (report_for world_plain) [alice; bob; carol]
     ∧ reported
         (events_of (dispatch world_plain [alice; bob; carol] "gg" with_batch))
       = filter (fun u => failed world_plain u = true) [alice; bob; carol]
     ∧ length (failure_reports
         (events_of (dispatch world_plain [alice; bob; carol] "gg" with_batch)))
       = length (filter (fun u => failed world_plain u = true)
                        [alice; bob; carol]))
    ∧ resend world_plain guild "gg" with_batch
      = (Ok tt, with_batch,
         events_of (dispatch world_plain [alice; bob; carol] "gg" with_batch)
         ++ [EvReply ReplyAllDone]).
Proof.
  split; [reflexivity|].
  apply (dispatch_attempts_all_reports_failures
           world_plain guild [alice; bob; carol] "gg" with_batch).
  reflexivity.
Defined.

(** Three recipients, the second one unreachable: the first and the third
    are still served, and only the second is reported. *)
Example dispatch_second_fails :
  events_of (dispatch world_plain [alice; bob; carol] "gg" init)
  = [EvDM alice "gg"; EvDM bob "gg"; EvReply (ReplyDmForbidden bob);
     EvDM carol "gg"].
Proof. vm_compute. reflexivity. Qed.

(** ** C9: what a command for one guild does to another guild *)

(** C9 on the code.  [_pools], [_picked_users] and
    [_previously_selected_users] are declared as dicts keyed by guild, but
    [_title] is one string and [open] assigns it without a key: opening a
    pool with a title in one guild changes the title of every other guild,
    and a member who then joins in another guild is answered with that
    title. *)
Theorem open_changes_other_guild_title :
  guild ≠ other_guild
  ∧ title_of init other_guild = EmptyString
  ∧ title_of (state_of (run world_plain guild (CmdOpen "Trivia") init))
             other_guild
    = "Trivia"%string
  ∧ events_of (join world_plain other_guild alice
      (run_all world_plain
         [(guild, CmdOpen "Trivia"); (other_guild, CmdOpen EmptyString)]
         init).1)
    = [EvReply (ReplyJoined "Trivia")]
  ∧ ¬ guild_isolated world_plain guild other_guild (CmdOpen "Trivia") init.
Proof.
  split_and!; [unfold guild, other_guild; lia|vm_compute; reflexivity..|].
  intros (_ & Htitle & _). vm_compute in Htitle. discriminate.
Qed.

(** An attribute that is declared per guild but rebound as a whole leaks
    in the same way: [clear_selected] issued in one guild discards the set
    recorded for another. *)
Example clear_selected_reaches_other_guild :
  exclusion_set
    {| _pools := ∅; _title := EmptyString; _picked_users := PUDict ∅;
       _previously_selected_users := PSDict {[ other_guild := {[ alice ]} ]} |}
    other_guild
  = inr {[ alice ]}
  ∧ exclusion_set
      (state_of (run world_plain guild CmdClearSelected
         {| _pools := ∅; _title := EmptyString; _picked_users := PUDict ∅;
            _previously_selected_users :=
              PSDict {[ other_guild := {[ alice ]} ]} |}))
      other_guild
    = inl TypeError.
Proof. split; vm_compute; reflexivity. Qed.

(** What is kept apart: a command run for guild [g] leaves the pool of
    every other guild (state and membership) as it was.  The title changes
    for every guild at once, and only under [open] with a non-empty
    title. *)
Theorem other_guild_pool_untouched
  (w : World) (g g' : Z) (c : Command) (st : Cog) :
  g ≠ g' →
  _pools (state_of (run w g c st)) !! g' = _pools st !! g'
  ∧ title_of (state_of (run w g c st)) g'
    = match c with
      | CmdOpen title => if bool_decide (title = EmptyString)
                         then title_of st g' else title
      | _ => title_of st g'
      end.
Proof.
  intros Hne. unfold title_of.
  destruct c as [a|a|t| |n m d|m| | |]; simpl.
  - rewrite join_spec. cbn zeta. unfold state_of.
    repeat case_match; simpl; by rewrite lookup_insert_ne.
  - rewrite leave_spec. cbn zeta. unfold state_of.
    repeat case_match; simpl; by rewrite lookup_insert_ne.
  - rewrite open_spec. unfold state_of, opened_title. simpl.
    by rewrite lookup_insert_ne.
  - rewrite close_spec. unfold state_of. simpl. by rewrite lookup_insert_ne.
  - rewrite pick_spec. cbn zeta. unfold state_of, pick_tail.
    repeat case_match; simpl; by rewrite lookup_insert_ne.
  - by rewrite resend_state.
  - rewrite list_members_spec. unfold state_of. simpl.
    by rewrite lookup_insert_ne.
  - rewrite clear_pool_spec. unfold state_of. simpl.
    by rewrite lookup_insert_ne.
  - done.
Qed.

(** [open] with a title in one guild, seen from another. *)
Lemma other_guild_pool_untouched_witness :
  guild ≠ other_guild
  ∧ _pools (state_of (run world_plain guild (CmdOpen "Bingo") three_joined))
      !! other_guild
    = _pools three_joined !! other_guild
  ∧ title_of (state_of (run world_plain guild (CmdOpen "Bingo") three_joined))
      other_guild
    = (if bool_decide ("Bingo"%string = EmptyString)
       then title_of three_joined other_guild else "Bingo"%string).
Proof.
  split; [unfold guild, other_guild; lia|].
  apply (other_guild_pool_untouched
           world_plain guild other_guild (CmdOpen "Bingo") three_joined).
  unfold guild, other_guild; lia.
Defined.

(** ** C3: resend before any pick *)

(** C3 on the code.  On a fresh cog [_picked_users] is the empty dict, so
    [self._picked_users[ctx.guild.id]] raises [KeyError]: no delivery is
    made, but the handler ends with the exception and never replies. *)
Theorem resend_before_any_pick_raises (w : World) (gid : Z) (message : string) :
  resend w gid message init = (Raise KeyError, init, []).
Proof. rewrite resend_spec. simpl. by rewrite lookup_empty. Qed.

(** ** C7: resend after a pick *)

(** Once [pick] has rebound [_picked_users] to a list, [resend] cannot
    reach its loop: the guild id either is out of range for the list or
    selects a single member, which is not iterable. *)
Lemma resend_on_list_raises (w : World) (gid : Z) (message : string)
  (st : Cog) (l : list Member) :
  _picked_users st = PUList l →
  events_of (resend w gid message st) = []
  ∧ (result_of (resend w gid message st) = Raise IndexError
     ∨ result_of (resend w gid message st) = Raise TypeError).
Proof.
  intros Hl. rewrite resend_spec, Hl. simpl.
  destruct (py_list_getitem l gid); simpl; eauto.
Qed.

(** C7 on the code.  [pick] stores the batch in [_picked_users] itself,
    not under the guild's key, announces it, and ends with [TypeError] at
    line 151 without having sent a message.  A [resend] issued afterwards
    subscripts that list with the guild id and raises [IndexError] before
    any message is sent; it changes nothing in the cog. *)
Theorem resend_after_pick_raises :
  _picked_users after_pick = PUList [carol; alice]
  ∧ result_of (pick world_plain guild 2 "gg" [5; 7]%nat three_joined)
    = Raise TypeError
  ∧ attempts (events_of (pick world_plain guild 2 "gg" [5; 7]%nat three_joined))
    = []
  ∧ result_of (resend world_plain guild "gg" after_pick) = Raise IndexError
  ∧ events_of (resend world_plain guild "gg" after_pick) = []
  ∧ state_of (resend world_plain guild "gg" after_pick) = after_pick.
Proof.
  split_and!; [vm_compute; reflexivity..|apply resend_state].
Qed.

(** ** C2: exclusion of selected members *)

Lemma run_nothing_selected (w : World) (gid : Z) (c : Command) (st : Cog) :
  nothing_selected st → nothing_selected (state_of (run w gid c st)).
Proof.
  unfold nothing_selected. intros H.
  destruct c as [a|a|t| |n m d|m| | |]; simpl.
  - rewrite join_spec. cbn zeta. unfold state_of. by repeat case_match.
  - rewrite leave_spec. cbn zeta. unfold state_of. by repeat case_match.
  - by rewrite open_spec.
  - by rewrite close_spec.
  - rewrite pick_spec. cbn zeta. unfold state_of, pick_tail.
    destruct (MemberPool.pick _ _ _).2; simpl; [done|].
    destruct (exclude_selected _); simpl; [|done].
    destruct H as [Hd|Hs]; rewrite ?Hd, ?Hs; simpl.
    + rewrite lookup_empty. simpl. by left.
    + by right.
  - by rewrite resend_state.
  - by rewrite list_members_spec.
  - by rewrite clear_pool_spec.
  - right. done.
Qed.

Lemma run_all_state (w : World) (gid : Z) (c : Command)
  (cs : list (Z * Command)) (st : Cog) :
  (run_all w ((gid, c) :: cs) st).1
  = (run_all w cs (state_of (run w gid c st))).1.
Proof.
  simpl. unfold state_of.
  destruct (run w gid c st) as [[r st1] ev1]. simpl.
  by destruct (run_all w cs st1).
Qed.

(** In no state the cog can reach is any member found in
    [_previously_selected_users]: the recently-selected rejection of
    [join] cannot happen. *)
Lemma reachable_nothing_selected (w : World) (cs : list (Z * Command))
  (author : Member) :
  previously_selected_contains author
    (_previously_selected_users (run_all w cs init).1) = false.
Proof.
  assert (H : ∀ st, nothing_selected st → nothing_selected (run_all w cs st).1).
  { induction cs as [|[gid c] cs IH]; intros st Hst; [done|].
    rewrite run_all_state. by apply IH, run_nothing_selected. }
  destruct (H init) as [-> | ->]; [by left|done|done].
Qed.

(** C2 on the code.  With exclusion tracking enabled, [pick] draws alice
    and then raises [KeyError] at
    [self._previously_selected_users[ctx.guild.id]]: the guild has no entry
    there.  Alice is recorded nowhere, and once the pool is opened again
    her [join] is accepted. *)
Theorem pick_records_no_exclusion :
  _picked_users picked_excluding = PUList [alice]
  ∧ result_of (pick world_excluding guild 1 "gg" [0]%nat joined_excluding)
    = Raise KeyError
  ∧ _previously_selected_users picked_excluding = PSDict ∅
  ∧ events_of
      (join world_excluding guild alice
         (state_of (open world_excluding guild EmptyString picked_excluding)))
    = [EvReply (ReplyJoined "Trivia")].
Proof. split_and!; vm_compute; reflexivity. Qed.

(** * Further properties of the code *)

(** ** Configuration *)

Lemma prefix_append (p rest : string) :
  String.prefix p (p ++ rest)%string = true.
Proof.
  induction p as [|c p IH]; simpl.
  - destruct rest; reflexivity.
  - destruct (Ascii.ascii_dec c c); [exact IH|congruence].
Qed.

Lemma prefix_split (p s : string) :
  String.prefix p s = true → ∃ rest, s = (p ++ rest)%string.
Proof.
  revert s. induction p as [|c p IH]; intros s H; [by exists s|].
  destruct s as [|c' s]; [done|]. simpl in H.
  destruct (Ascii.ascii_dec c c') as [->|]; [|done].
  destruct (IH _ H) as [rest ->]. by exists rest.
Qed.

Lemma replace_skip_append (t old new rest : string) :
  Config.replace_skip (String.length t) old new (t ++ rest)%string
  = Config.replace_skip 0 old new rest.
Proof. induction t as [|c t IH]; simpl; [done|apply IH]. Qed.

(** A found occurrence is replaced and the scan goes on behind it. *)
Lemma py_replace_prefix (c : Ascii.ascii) (old new rest : string) :
  Config.py_replace (String c old) new (String c old ++ rest)%string
  = (new ++ Config.py_replace (String c old) new rest)%string.
Proof.
  unfold Config.py_replace.
  change (Config.replace_skip 0 (String c old) new (String c old ++ rest)%string)
    with (if String.prefix (String c old) (String c old ++ rest)%string
          then (new ++ Config.replace_skip (String.length (String c old) - 1)
                        (String c old) new (old ++ rest)%string)%string
          else String c (Config.replace_skip 0 (String c old) new
                           (old ++ rest)%string)).
  rewrite prefix_append.
  replace (String.length (String c old) - 1)%nat with (String.length old)
    by (simpl; lia).
  by rewrite replace_skip_append.
Qed.

Lemma py_replace_no_occurrence (old new s : string) :
  Config.occurs old s = false → Config.py_replace old new s = s.
Proof.
  unfold Config.py_replace.
  induction s as [|c s IH]; [done|].
  intros H.
  change (Config.occurs old (String c s))
    with (String.prefix old (String c s) || Config.occurs old s) in H.
  apply orb_false_iff in H as [Hp Ho].
  change (Config.replace_skip 0 old new (String c s))
    with (if String.prefix old (String c s)
          then (new ++ Config.replace_skip (String.length old - 1) old new s)%string
          else String c (Config.replace_skip 0 old new s)).
  by rewrite Hp, IH.
Qed.

Lemma translate_postgres_prefixed {A} (rest : string) :
  @Config.translate_postgres A (inl ("postgres://" ++ rest)%string)
  = inl ("postgresql+asyncpg://"
         ++ Config.py_replace "postgres://" "postgresql+asyncpg://" rest)%string.
Proof.
  unfold Config.translate_postgres.
  rewrite (prefix_append "postgres://" rest).
  f_equal. apply py_replace_prefix.
Qed.

(** X12.  [translate_postgres] never returns a string that starts with
    [postgres://], so validating a value twice gives what validating it
    once gives; a value that is not a string passes through. *)
Theorem translate_postgres_idempotent {A} (v : string + A) :
  Config.translate_postgres (Config.translate_postgres v)
  = Config.translate_postgres v
  ∧ (∀ s, Config.translate_postgres v = inl s
          → String.prefix "postgres://" s = false)
  ∧ (∀ a, v = inr a → Config.translate_postgres v = inr a).
Proof.
  assert (Hno : ∀ s, Config.translate_postgres v = inl s
                     → String.prefix "postgres://" s = false).
  { intros s Hs. destruct v as [s0|a]; [|done].
    destruct (String.prefix "postgres://" s0) eqn:E.
    - destruct (prefix_split _ _ E) as [rest ->].
      rewrite translate_postgres_prefixed in Hs. by injection Hs as <-.
    - unfold Config.translate_postgres in Hs. rewrite E in Hs.
      by injection Hs as <-. }
  split_and!; [|done|by intros a ->].
  destruct (Config.translate_postgres v) as [s|a] eqn:E; [|done].
  unfold Config.translate_postgres at 1. by rewrite (Hno s).
Qed.

(** X13.  A URL with the [postgres://] scheme and no further occurrence of
    it comes out with the scheme [postgresql+asyncpg://] and the rest
    untouched. *)
Theorem translate_postgres_swaps_scheme {A} (rest : string) :
  Config.occurs "postgres://" rest = false →
  @Config.translate_postgres A (inl ("postgres://" ++ rest)%string)
  = inl ("postgresql+asyncpg://" ++ rest)%string.
Proof.
  intros Hno. rewrite translate_postgres_prefixed.
  by rewrite py_replace_no_occurrence.
Qed.

(** A typical database URL. *)
Lemma translate_postgres_swaps_scheme_witness :
  Config.occurs "postgres://" "bot:secret@db.example/dingomata" = false
  ∧ @Config.translate_postgres unit
      (inl ("postgres://" ++ "bot:secret@db.example/dingomata")%string)
    = inl ("postgresql+asyncpg://" ++ "bot:secret@db.example/dingomata")%string.
Proof.
  split; [reflexivity|].
  apply (@translate_postgres_swaps_scheme unit "bot:secret@db.example/dingomata").
  reflexivity.
Defined.

(** [str.replace] rewrites every occurrence, also one inside the URL. *)
Example translate_postgres_inner_occurrence :
  @Config.translate_postgres unit (inl "postgres://u:postgres://@h"%string)
  = inl "postgresql+asyncpg://u:postgresql+asyncpg://@h"%string.
Proof. reflexivity. Qed.

Example translate_postgres_other_scheme :
  @Config.translate_postgres unit (inl "sqlite:///postgres://x"%string)
  = inl "sqlite:///postgres://x"%string.
Proof. reflexivity. Qed.

Lemma get_command_guilds_elem_of (servers : gmap Z Config.GuildConfig)
  (command : string) (dflt : bool) (g : Z) :
  g ∈ Config.get_command_guilds servers command dflt
  ↔ ∃ c, servers !! g = Some c
         ∧ Config.command_enabled c command dflt = true.
Proof.
  unfold Config.get_command_guilds.
  rewrite list_elem_of_fmap. split.
  - intros ([g' c] & -> & [He Hl]%list_elem_of_filter).
    apply elem_of_map_to_list in Hl. eauto.
  - intros (c & Hl & He). exists (g, c). split; [done|].
    apply list_elem_of_filter. split; [done|].
    by apply elem_of_map_to_list.
Qed.

(** X14.  [get_command_guilds] lists exactly the configured guilds for
    which the command is enabled, explicitly or by the default, and lists
    each of them once; whatever is listed with default [False] is listed
    with default [True]. *)
Theorem get_command_guilds_spec (servers : gmap Z Config.GuildConfig)
  (command : string) (dflt : bool) :
  (∀ g, g ∈ Config.get_command_guilds servers command dflt
        ↔ ∃ c, servers !! g = Some c
               ∧ Config.command_enabled c command dflt = true)
  ∧ NoDup (Config.get_command_guilds servers command dflt)
  ∧ (∀ g, g ∈ Config.get_command_guilds servers command false
          → g ∈ Config.get_command_guilds servers command true).
Proof.
  split_and!; [intros g; apply get_command_guilds_elem_of| |].
  - unfold Config.get_command_guilds.
    apply (sublist_NoDup _ ((map_to_list servers).*1));
      [apply NoDup_fst_map_to_list|apply fmap_sublist, sublist_filter].
  - intros g (c & Hl & He)%get_command_guilds_elem_of.
    apply get_command_guilds_elem_of. exists c. split; [done|].
    unfold Config.command_enabled in *.
    by destruct (Config.commands c !! command) as [[]|].
Qed.

(** X15.  A guild that sets the command in its [commands] is listed or
    left out by that setting alone; the default plays no part. *)
Theorem get_command_guilds_explicit (servers : gmap Z Config.GuildConfig)
  (command : string) (dflt : bool) (g : Z) (c : Config.GuildConfig)
  (b : bool) :
  servers !! g = Some c →
  Config.commands c !! command = Some b →
  (g ∈ Config.get_command_guilds servers command dflt ↔ b = true).
Proof.
  intros Hg Hc.
  rewrite get_command_guilds_elem_of. unfold Config.command_enabled. split.
  - intros (c' & Hg' & He). rewrite Hg in Hg'. injection Hg' as <-.
    by rewrite Hc in He.
  - intros ->. exists c. by rewrite Hc.
Qed.

(** Guild 2000 forbids the command, and the default [True] does not list
    it. *)
Lemma get_command_guilds_explicit_witness :
  sample_servers !! 2000
  = Some {| Config.mod_roles := ∅; Config.mod_users := ∅;
            Config.commands := {[ "game"%string := false ]} |}
  ∧ ({[ "game"%string := false ]} : gmap string bool) !! "game"%string
    = Some false
  ∧ (2000 ∈ Config.get_command_guilds sample_servers "game" true
     ↔ false = true).
Proof.
  split; [reflexivity|]. split; [reflexivity|].
  apply (get_command_guilds_explicit sample_servers "game" true 2000
           {| Config.mod_roles := ∅; Config.mod_users := ∅;
              Config.commands := {[ "game"%string := false ]} |} false);
    reflexivity.
Defined.

(** Up to order, what the code returns: [[1000, 3000]] and [[1000]]. *)
Example get_command_guilds_sample :
  Config.get_command_guilds sample_servers "game" true ≡ₚ [1000; 3000]
  ∧ Config.get_command_guilds sample_servers "game" false ≡ₚ [1000].
Proof.
  split.
  - assert (Config.get_command_guilds sample_servers "game" true
            = [3000; 1000]) as -> by (vm_compute; reflexivity).
    apply Permutation_swap.
  - assert (Config.get_command_guilds sample_servers "game" false
            = [1000]) as -> by (vm_compute; reflexivity).
    done.
Qed.

(** X16.  [GuildConfig.mod_permissions] holds one granting permission per
    moderator role and one per moderator user, nothing else and nothing
    twice. *)
Theorem mod_permissions_spec (c : Config.GuildConfig) :
  (∀ p, p ∈ Config.mod_permissions c
        ↔ Config.permission p = true
          ∧ (Config.perm_type p = Config.ROLE
             ∧ Config.perm_id p ∈ Config.mod_roles c
             ∨ Config.perm_type p = Config.USER
               ∧ Config.perm_id p ∈ Config.mod_users c))
  ∧ length (Config.mod_permissions c)
    = (size (Config.mod_roles c) + size (Config.mod_users c))%nat
  ∧ NoDup (Config.mod_permissions c).
Proof.
  unfold Config.mod_permissions, Config.create_permission. split_and!.
  - intros [i t a]. rewrite elem_of_app, !list_elem_of_fmap. simpl. split.
    + intros [(r & [= -> -> ->] & Hr%elem_of_elements)
             |(r & [= -> -> ->] & Hr%elem_of_elements)]; eauto.
    + intros (-> & [[-> Hr]|[-> Hr]]); [left|right];
        exists i; by rewrite elem_of_elements.
  - by rewrite length_app, !length_fmap.
  - apply NoDup_app. split_and!.
    + apply NoDup_fmap_2_strong; [|apply NoDup_elements].
      by intros x y _ _ [= ->].
    + intros p (r & -> & _)%list_elem_of_fmap (r' & [=] & _)%list_elem_of_fmap.
    + apply NoDup_fmap_2_strong; [|apply NoDup_elements].
      by intros x y _ _ [= ->].
Qed.

Lemma lookup_foldl_insert {V} (h : Z → V) (l : list Z) (acc : gmap Z V) (g : Z) :
  foldl (fun m k => <[k := h k]> m) acc l !! g
  = if decide (g ∈ l) then Some (h g) else acc !! g.
Proof.
  revert acc. induction l as [|k l IH]; intros acc; simpl.
  - destruct (decide (g ∈ [])) as [H|H]; [by apply elem_of_nil in H|done].
  - rewrite IH.
    destruct (decide (g ∈ l)) as [Hl|Hl];
      destruct (decide (g ∈ k :: l)) as [Hkl|Hkl]; try done.
    + exfalso. apply Hkl. by right.
    + apply elem_of_cons in Hkl as [->|?]; [by rewrite lookup_insert_eq|done].
    + rewrite lookup_insert_ne; [done|]. intros ->. apply Hkl. left.
Qed.

Lemma omap_id_length {V} (l : list (option V)) :
  None ∉ l → length (omap id l) = length l.
Proof.
  induction l as [|[x|] l IH]; intros Hn; simpl; [done| |].
  - f_equal. apply IH. intros ?. apply Hn. by right.
  - exfalso. apply Hn. left.
Qed.

(** X17.  [_PLAYER_PERMS] has an entry exactly for the guilds of
    [get_guilds()] whose [player_roles] holds no [None]; the entry grants
    the command to each of the guild's player roles, one permission per
    role. *)
Theorem player_perms_spec (guilds : list Z) (roles : Z → list (option Z))
  (g : Z) :
  _PLAYER_PERMS guilds roles !! g
  = (if decide (g ∈ guilds ∧ None ∉ roles g)
     then Some ((fun role => Config.create_permission role Config.ROLE true)
                  <$> omap id (roles g))
     else None)
  ∧ ∀ perms, _PLAYER_PERMS guilds roles !! g = Some perms →
      length perms = length (roles g)
      ∧ Forall (fun p => Config.permission p = true
                         ∧ Config.perm_type p = Config.ROLE
                         ∧ Some (Config.perm_id p) ∈ roles g) perms.
Proof.
  assert (Heq : _PLAYER_PERMS guilds roles !! g
    = (if decide (g ∈ guilds ∧ None ∉ roles g)
       then Some ((fun role => Config.create_permission role Config.ROLE true)
                    <$> omap id (roles g))
       else None)).
  { unfold _PLAYER_PERMS.
    rewrite (lookup_foldl_insert
      (fun guild => (fun role => Config.create_permission role Config.ROLE true)
                      <$> omap id (roles guild))).
    rewrite lookup_empty.
    destruct (decide (g ∈ filter (fun guild => None ∉ roles guild) guilds))
      as [Hin|Hin]; rewrite list_elem_of_filter in Hin.
    - rewrite decide_True; [done|]. by destruct Hin.
    - rewrite decide_False; [done|]. intros [? ?]. by apply Hin. }
  split; [done|].
  intros perms. rewrite Heq.
  destruct (decide _) as [[Hg Hn]|]; [|done].
  intros [= <-]. split.
  - by rewrite length_fmap, omap_id_length.
  - apply Forall_fmap, Forall_forall. intros r Hr. simpl.
    split_and!; [done..|].
    apply list_elem_of_omap in Hr as ([x|] & Hx & [=]). by subst.
Qed.

Example player_perms_sample :
  _PLAYER_PERMS [1000; 2000]
    (fun g => if bool_decide (g = 1000) then [Some 5; Some 6] else [Some 5; None])
  = {[ 1000 := [Config.create_permission 5 Config.ROLE true;
                Config.create_permission 6 Config.ROLE true] ]}.
Proof. vm_compute. reflexivity. Qed.

(** ** The cog's attributes across commands *)

(** What one command does to each attribute. *)
Lemma run_attributes (w : World) (g : Z) (c : Command) (st : Cog) :
  (_pools (state_of (run w g c st)) = _pools st
   ∨ ∃ p, _pools (state_of (run w g c st)) = <[g := p]> (_pools st))
  ∧ _title (state_of (run w g c st))
    = match c with
      | CmdOpen title => opened_title (_title st) title
      | _ => _title st
      end
  ∧ match c with
    | CmdPick _ _ _ => True
    | _ => _picked_users (state_of (run w g c st)) = _picked_users st
    end
  ∧ match c with
    | CmdPick _ _ _ | CmdClearSelected => True
    | _ => _previously_selected_users (state_of (run w g c st))
           = _previously_selected_users st
    end.
Proof.
  destruct c as [a|a|t| |n m d|m| | |]; simpl.
  - rewrite join_spec. cbn zeta. unfold state_of.
    repeat case_match; simpl; split_and!; eauto.
  - rewrite leave_spec. cbn zeta. unfold state_of.
    repeat case_match; simpl; split_and!; eauto.
  - rewrite open_spec. unfold state_of. simpl. split_and!; eauto.
  - rewrite close_spec. unfold state_of. simpl. split_and!; eauto.
  - rewrite pick_spec. cbn zeta. unfold state_of, pick_tail.
    repeat case_match; simpl; split_and!; eauto.
  - rewrite resend_state. split_and!; eauto.
  - rewrite list_members_spec. unfold state_of. simpl. split_and!; eauto.
  - rewrite clear_pool_spec. unfold state_of. simpl. split_and!; eauto.
  - split_and!; eauto.
Qed.

Lemma run_all_cons (w : World) (g : Z) (c : Command)
  (cs : list (Z * Command)) (st : Cog) :
  run_all w ((g, c) :: cs) st
  = ((run_all w cs (state_of (run w g c st))).1,
     events_of (run w g c st) ++ (run_all w cs (state_of (run w g c st))).2).
Proof.
  simpl. unfold state_of, events_of.
  destruct (run w g c st) as [[r st1] ev1]. simpl.
  by destruct (run_all w cs st1).
Qed.

(** X1.  [_pool_for_guild] creates a guild's pool on first use and never
    again: it returns the stored pool if there is one and then changes
    nothing; after the call the guild has a pool, a second call returns
    the same pool and changes nothing, and no other guild's entry is
    touched. *)
Theorem pool_for_guild_lazy (gid : Z) (st : Cog) :
  result_of (_pool_for_guild gid st) = Ok (pool_of st gid)
  ∧ _pools (state_of (_pool_for_guild gid st)) !! gid = Some (pool_of st gid)
  ∧ _pool_for_guild gid (state_of (_pool_for_guild gid st))
    = (Ok (pool_of st gid), state_of (_pool_for_guild gid st), [])
  ∧ (∀ p, _pools st !! gid = Some p
          → pool_of st gid = p ∧ state_of (_pool_for_guild gid st) = st)
  ∧ (∀ g', gid ≠ g' →
       _pools (state_of (_pool_for_guild gid st)) !! g' = _pools st !! g').
Proof.
  assert (Hstored : ∀ p, _pools st !! gid = Some p
            → pool_of st gid = p ∧ state_of (_pool_for_guild gid st) = st).
  { intros p Hp. unfold _pool_for_guild, pool_of. by rewrite Hp. }
  split_and!; [| | |done|]; rewrite (pool_for_guild_spec gid st);
    unfold result_of, state_of; cbn [fst snd].
  - done.
  - simpl. by rewrite lookup_insert_eq.
  - rewrite pool_for_guild_spec, pool_of_with_pool.
    by rewrite with_pool_with_pool.
  - intros g' Hne. simpl. by rewrite lookup_insert_ne.
Qed.

(** X2.  No command removes a pool, and a command run for a guild adds no
    pool but that guild's. *)
Theorem pools_only_grow (w : World) (g : Z) (c : Command) (st : Cog) :
  dom (_pools st) ⊆ dom (_pools (state_of (run w g c st)))
  ∧ dom (_pools (state_of (run w g c st))) ⊆ dom (_pools st) ∪ {[ g ]}.
Proof.
  destruct (run_attributes w g c st) as ([->|[p ->]] & _).
  - split; [done|apply union_subseteq_l].
  - rewrite dom_insert_L. split; [apply union_subseteq_r|].
    apply union_least; [apply union_subseteq_r|apply union_subseteq_l].
Qed.

(** X3.  Each attribute has its writers: [_title] is assigned by [open]
    only, [_picked_users] by [pick] only, and
    [_previously_selected_users] by [pick] and [clear_selected] only. *)
Theorem attributes_written_by (w : World) (g : Z) (c : Command) (st : Cog) :
  (_title (state_of (run w g c st)) ≠ _title st → ∃ title, c = CmdOpen title)
  ∧ (_picked_users (state_of (run w g c st)) ≠ _picked_users st
     → ∃ count message draws, c = CmdPick count message draws)
  ∧ (_previously_selected_users (state_of (run w g c st))
     ≠ _previously_selected_users st
     → (∃ count message draws, c = CmdPick count message draws)
       ∨ c = CmdClearSelected).
Proof.
  destruct (run_attributes w g c st) as (_ & Ht & Hp & Hs).
  destruct c; split_and!; intros Hne; try (by destruct Hne); eauto 6.
Qed.

(** X8.  After any sequence of commands the title is the last non-empty
    title given to [open], in whichever guild that was, or the old title
    if there was none. *)
Theorem title_is_latest_opened (w : World) (cs : list (Z * Command))
  (st : Cog) :
  _title (run_all w cs st).1 = latest_title cs (_title st).
Proof.
  revert st. induction cs as [|[g c] cs IH]; intros st; [done|].
  rewrite run_all_cons. cbn [fst]. rewrite IH.
  destruct (run_attributes w g c st) as (_ & -> & _).
  unfold latest_title. simpl. by destruct c.
Qed.

Example title_from_another_guild :
  events_of (join world_plain other_guild alice
    (run_all world_plain
       [(guild, CmdOpen "Trivia"); (other_guild, CmdOpen EmptyString)] init).1)
  = [EvReply (ReplyJoined "Trivia")].
Proof. vm_compute. reflexivity. Qed.

(** ** Outcomes of [resend] and [pick] *)

(** X4.  [resend] returns normally exactly when [_picked_users] is a dict
    holding the guild's key.  Otherwise it raises before anything is sent
    or replied: [KeyError] on a dict without the key, [IndexError] or
    [TypeError] on a list.  In every case the cog is left as it was, so a
    second [resend] does what the first did. *)
Theorem resend_outcome (w : World) (gid : Z) (message : string) (st : Cog) :
  (result_of (resend w gid message st) = Ok tt
   ↔ ∃ d l, _picked_users st = PUDict d ∧ d !! gid = Some l)
  ∧ (result_of (resend w gid message st) ≠ Ok tt
     → events_of (resend w gid message st) = [])
  ∧ (∀ d, _picked_users st = PUDict d → d !! gid = None
          → result_of (resend w gid message st) = Raise KeyError)
  ∧ (∀ l, _picked_users st = PUList l
          → result_of (resend w gid message st) = Raise IndexError
            ∨ result_of (resend w gid message st) = Raise TypeError)
  ∧ state_of (resend w gid message st) = st
  ∧ resend w gid message (state_of (resend w gid message st))
    = resend w gid message st.
Proof.
  rewrite resend_state. rewrite resend_spec.
  unfold result_of, events_of, picked_users_getitem.
  destruct (_picked_users st) as [d|l].
  - destruct (d !! gid) as [l|] eqn:Ed; simpl; split_and!; try done.
    + split; [eauto|done].
    + intros d' [= <-] Hn. congruence.
    + split; [done|]. intros (d' & l & [= <-] & Hl). congruence.
  - destruct (py_list_getitem l gid); simpl; split_and!; try done;
      first [ split; [done|intros (d' & l' & [=] & _)]
            | intros l0 _; eauto ].
Qed.

(** X5.  [pick] never returns normally and never sends a direct message
    or the closing reply of [resend].  When the pool's draw raises, so
    does [pick].  When the draw returns, [pick] raises at the exclusion
    step ([KeyError] or [TypeError]) or, past it, [TypeError] at line 151,
    where [self.resend] is a command object and cannot be called; with
    exclusion tracking off it is always that [TypeError].  [resend] is
    never entered. *)
Theorem pick_always_raises (w : World) (gid : Z) (count : Z)
  (message : string) (draws : list nat) (st : Cog) :
  (∃ e, result_of (pick w gid count message draws st) = Raise e)
  ∧ attempts (events_of (pick w gid count message draws st)) = []
  ∧ (EvReply ReplyAllDone ∉ events_of (pick w gid count message draws st))
  ∧ match (MemberPool.pick (pool_of st gid) count draws).2 with
    | inl e => result_of (pick w gid count message draws st) = Raise e
    | inr _ =>
        if exclude_selected (get_guild_config w gid)
        then result_of (pick w gid count message draws st) = Raise KeyError
             ∨ result_of (pick w gid count message draws st) = Raise TypeError
        else result_of (pick w gid count message draws st) = Raise TypeError
    end.
Proof.
  rewrite pick_spec. cbn zeta. unfold pick_tail, result_of, events_of.
  destruct (MemberPool.pick _ _ _).2 as [e|batch]; simpl.
  { split_and!; eauto. by intros []%elem_of_nil. }
  assert (Hann : ∀ e : Embed,
            EvReply ReplyAllDone ∉ [EvChannel gid e]).
  { intros e [Heq|[]%elem_of_nil]%elem_of_cons. discriminate. }
  destruct (exclude_selected _); [|split_and!; eauto].
  destruct (_previously_selected_users st) as [d|s];
    [destruct (d !! gid)|]; simpl; split_and!; eauto;
    by intros []%elem_of_nil.
Qed.

(** ** What the cog never does *)

(** While [_picked_users] holds no readable batch, a command keeps it so
    and emits neither a direct message nor the closing reply of
    [resend]. *)
Lemma run_keeps_no_batch (w : World) (g : Z) (c : Command) (st : Cog) :
  no_batch st →
  no_batch (state_of (run w g c st))
  ∧ Forall (fun e => (∀ u m, e ≠ EvDM u m) ∧ e ≠ EvReply ReplyAllDone)
           (events_of (run w g c st)).
Proof.
  intros Hnb.
  assert (Hre : ∀ message, events_of (resend w g message st) = []).
  { intros message. rewrite resend_spec. unfold picked_users_getitem.
    destruct Hnb as [->|[l ->]].
    - by rewrite lookup_empty.
    - by destruct (py_list_getitem l g). }
  destruct c as [a|a|t| |n m d|m| | |]; simpl.
  - rewrite join_spec. cbn zeta. unfold state_of, events_of, no_batch.
    repeat case_match; simpl; (split; [done|]); repeat constructor; done.
  - rewrite leave_spec. cbn zeta. unfold state_of, events_of, no_batch.
    repeat case_match; simpl; (split; [done|]); repeat constructor; done.
  - rewrite open_spec. unfold state_of, events_of, no_batch. simpl.
    split; [done|]. repeat constructor; done.
  - rewrite close_spec. unfold state_of, events_of, no_batch. simpl.
    split; [done|]. repeat constructor; done.
  - rewrite pick_spec. cbn zeta. unfold state_of, events_of, pick_tail, no_batch.
    repeat case_match; simpl; (split; [eauto|]); repeat constructor; done.
  - rewrite resend_state, Hre. split; [done|constructor].
  - rewrite list_members_spec. unfold state_of, events_of, no_batch. simpl.
    split; [done|]. repeat constructor; done.
  - rewrite clear_pool_spec. unfold state_of, events_of, no_batch. simpl.
    split; [done|]. repeat constructor; done.
  - unfold state_of, events_of, no_batch. simpl.
    split; [done|]. repeat constructor; done.
Qed.

(** X6.  Whatever commands the cog receives after [__init__], it never
    sends a direct message and never sends the closing reply of [resend]:
    [_picked_users] is the empty dict until the first successful draw and
    a list from then on, and [resend] can read neither. *)
Theorem no_direct_message_ever (w : World) (cs : list (Z * Command)) :
  attempts (run_all w cs init).2 = []
  ∧ EvReply ReplyAllDone ∉ (run_all w cs init).2.
Proof.
  assert (H : ∀ st, no_batch st →
    Forall (fun e => (∀ u m, e ≠ EvDM u m) ∧ e ≠ EvReply ReplyAllDone)
           (run_all w cs st).2).
  { induction cs as [|[g c] cs IH]; intros st Hst; [constructor|].
    rewrite run_all_cons. cbn [snd].
    destruct (run_keeps_no_batch w g c st Hst) as [Hst' Hev].
    apply Forall_app. split; [done|by apply IH]. }
  specialize (H init (or_introl eq_refl)).
  split.
  - induction H as [|e evs [Hdm _] _ IH]; [done|].
    destruct e as [r|g e|u m]; [exact IH|exact IH|by destruct (Hdm u m)].
  - intros Hin. rewrite Forall_forall in H. by destruct (H _ Hin) as [_ ?].
Qed.

Lemma dispatch_trace_delivery_events (w : World) (recipients : list Member)
  (message : string) :
  Forall (fun e => is_delivery_event e = true)
         (dispatch_trace w recipients message).
Proof.
  induction recipients as [|u rest IH]; [constructor|].
  unfold dispatch_trace in *. rewrite bind_cons. apply Forall_app.
  split; [|done]. unfold send_trace, report_for.
  destruct (dm_send w u); repeat constructor.
Qed.

Lemma run_all_nothing_selected (w : World) (cs : list (Z * Command))
  (st : Cog) :
  nothing_selected st → nothing_selected (run_all w cs st).1.
Proof.
  revert st. induction cs as [|[g c] cs IH]; intros st Hst; [done|].
  rewrite run_all_cons. cbn [fst]. by apply IH, run_nothing_selected.
Qed.

Lemma run_never_recently_selected (w : World) (g : Z) (c : Command)
  (st : Cog) :
  nothing_selected st →
  Forall (fun e => e ≠ EvReply ReplyRecentlySelected)
         (events_of (run w g c st)).
Proof.
  intros Hns.
  assert (Hc : ∀ a, previously_selected_contains a
                      (_previously_selected_users st) = false).
  { intros a. by destruct Hns as [-> | ->]. }
  destruct c as [a|a|t| |n m d|m| | |]; simpl.
  - rewrite join_spec. cbn zeta. rewrite Hc. unfold events_of.
    repeat case_match; simpl; repeat constructor; done.
  - rewrite leave_spec. cbn zeta. unfold events_of.
    repeat case_match; simpl; repeat constructor; done.
  - rewrite open_spec. unfold events_of. simpl. repeat constructor; done.
  - rewrite close_spec. unfold events_of. simpl. repeat constructor; done.
  - rewrite pick_spec. cbn zeta. unfold events_of, pick_tail.
    repeat case_match; simpl; repeat constructor; done.
  - rewrite resend_spec. unfold events_of.
    repeat case_match; simpl; try constructor.
    apply Forall_app. split; [|repeat constructor; done].
    eapply Forall_impl; [apply dispatch_trace_delivery_events|].
    by intros e He ->.
  - rewrite list_members_spec. unfold events_of. simpl.
    repeat constructor; done.
  - rewrite clear_pool_spec. unfold events_of. simpl.
    repeat constructor; done.
  - unfold events_of. simpl. repeat constructor; done.
Qed.

(** X7.  Whatever commands the cog receives after [__init__], no [join]
    is ever answered as recently selected: no key is ever put into the
    dict of [_previously_selected_users], and [clear_selected] leaves an
    empty set. *)
Theorem never_recently_selected (w : World) (cs : list (Z * Command)) :
  (EvReply ReplyRecentlySelected ∉ (run_all w cs init).2)
  ∧ (∀ author, previously_selected_contains author
                 (_previously_selected_users (run_all w cs init).1) = false).
Proof.
  split.
  - assert (H : ∀ st, nothing_selected st →
      Forall (fun e => e ≠ EvReply ReplyRecentlySelected) (run_all w cs st).2).
    { induction cs as [|[g c] cs IH]; intros st Hst; [constructor|].
      rewrite run_all_cons. cbn [snd]. apply Forall_app. split.
      - by apply run_never_recently_selected.
      - by apply IH, run_nothing_selected. }
    intros Hin. specialize (H init (or_introl eq_refl)).
    rewrite Forall_forall in H. by apply (H _ Hin).
  - intros author.
    by destruct (run_all_nothing_selected w cs init (or_introl eq_refl))
      as [-> | ->].
Qed.

(** X9.  In a guild with [exclude_selected] enabled, [pick] emits nothing
    at all, whatever the cog has been through since [__init__]: the draw
    raises, or the draw is stored and the exclusion step raises
    [KeyError] (on the dict) or [TypeError] (on the set left by
    [clear_selected]) before the announcement. *)
Theorem pick_with_exclusion_emits_nothing (w : World)
  (cs : list (Z * Command)) (g : Z) (count : Z) (message : string)
  (draws : list nat) :
  exclude_selected (get_guild_config w g) = true →
  events_of (pick w g count message draws (run_all w cs init).1) = []
  ∧ match (MemberPool.pick (pool_of (run_all w cs init).1 g) count draws).2 with
    | inl e =>
        result_of (pick w g count message draws (run_all w cs init).1)
        = Raise e
    | inr batch =>
        _picked_users
          (state_of (pick w g count message draws (run_all w cs init).1))
        = PUList batch
        ∧ (result_of (pick w g count message draws (run_all w cs init).1)
           = Raise KeyError
           ∨ result_of (pick w g count message draws (run_all w cs init).1)
             = Raise TypeError)
    end.
Proof.
  intros Hex. rewrite pick_spec. cbn zeta. rewrite Hex.
  unfold events_of, result_of, state_of.
  destruct (MemberPool.pick _ _ _).2 as [e|batch]; [done|].
  destruct (run_all_nothing_selected w cs init (or_introl eq_refl))
    as [-> | ->].
  - rewrite lookup_empty. simpl. eauto.
  - simpl. eauto.
Qed.

(** After [clear_selected] the exclusion step meets a set. *)
Lemma pick_with_exclusion_emits_nothing_witness :
  exclude_selected (get_guild_config world_excluding guild) = true
  ∧ events_of (pick world_excluding guild 1 "gg" [0]%nat
       (run_all world_excluding
          [(guild, CmdOpen "Trivia"); (guild, CmdJoin alice);
           (guild, CmdClearSelected)] init).1) = []
  ∧ match (MemberPool.pick
             (pool_of (run_all world_excluding
                [(guild, CmdOpen "Trivia"); (guild, CmdJoin alice);
                 (guild, CmdClearSelected)] init).1 guild) 1 [0]%nat).2 with
    | inl e =>
        result_of (pick world_excluding guild 1 "gg" [0]%nat
          (run_all world_excluding
             [(guild, CmdOpen "Trivia"); (guild, CmdJoin alice);
              (guild, CmdClearSelected)] init).1)
        = Raise e
    | inr batch =>
        _picked_users
          (state_of (pick world_excluding guild 1 "gg" [0]%nat
            (run_all world_excluding
               [(guild, CmdOpen "Trivia"); (guild, CmdJoin alice);
                (guild, CmdClearSelected)] init).1))
        = PUList batch
        ∧ (result_of (pick world_excluding guild 1 "gg" [0]%nat
            (run_all world_excluding
               [(guild, CmdOpen "Trivia"); (guild, CmdJoin alice);
                (guild, CmdClearSelected)] init).1)
           = Raise KeyError
           ∨ result_of (pick world_excluding guild 1 "gg" [0]%nat
               (run_all world_excluding
                  [(guild, CmdOpen "Trivia"); (guild, CmdJoin alice);
                   (guild, CmdClearSelected)] init).1)
             = Raise TypeError)
    end.
Proof.
  split; [reflexivity|].
  apply (pick_with_exclusion_emits_nothing world_excluding
           [(guild, CmdOpen "Trivia"); (guild, CmdJoin alice);
            (guild, CmdClearSelected)] guild 1 "gg" [0]%nat).
  reflexivity.
Defined.

Example pick_after_clear_selected :
  result_of (pick world_excluding guild 1 "gg" [0]%nat
    (run_all world_excluding
       [(guild, CmdOpen "Trivia"); (guild, CmdJoin alice);
        (guild, CmdClearSelected)] init).1)
  = Raise TypeError.
Proof. vm_compute. reflexivity. Qed.

(** ** Admission *)

(** X10.  [join] always returns normally with exactly one reply, and
    unless that reply is the joined message the guild's pool is exactly
    what it was. *)
Theorem join_replies_once (w : World) (gid : Z) (author : Member) (st : Cog) :
  result_of (join w gid author st) = Ok tt
  ∧ (∃ r, events_of (join w gid author st) = [EvReply r])
  ∧ (pool_of (state_of (join w gid author st)) gid = pool_of st gid
     ∨ events_of (join w gid author st) = [EvReply (ReplyJoined (_title st))]).
Proof.
  rewrite join_spec. cbn zeta. unfold result_of, events_of, state_of.
  repeat case_match; simpl; rewrite ?pool_of_with_pool; eauto.
Qed.

(** X11.  [leave] while the guild's pool is closed is answered with the
    pool-closed message of [leave] and leaves the pool as it was. *)
Theorem leave_closed_rejected (w : World) (gid : Z) (m : Member) (st : Cog) :
  MemberPool.is_open (pool_of st gid) = false →
  result_of (leave w gid m st) = Ok tt
  ∧ events_of (leave w gid m st) = [EvReply ReplyLeaveClosed]
  ∧ pool_of (state_of (leave w gid m st)) gid = pool_of st gid.
Proof.
  intros Hclosed. rewrite leave_spec. cbn zeta. rewrite Hclosed.
  unfold result_of, events_of, state_of. simpl.
  by rewrite pool_of_with_pool.
Qed.

(** The pool of a fresh cog is closed. *)
Lemma leave_closed_rejected_witness :
  MemberPool.is_open (pool_of init guild) = false
  ∧ result_of (leave world_plain guild alice init) = Ok tt
  ∧ events_of (leave world_plain guild alice init) = [EvReply ReplyLeaveClosed]
  ∧ pool_of (state_of (leave world_plain guild alice init)) guild
    = pool_of init guild.
Proof.
  split; [reflexivity|].
  apply (leave_closed_rejected world_plain guild alice init).
  reflexivity.
Defined.

(** ** The loop of [resend] over parts of a list *)

(** X18.  Delivery to a list is delivery to its front part followed by
    delivery to the rest, so what happens to one recipient does not depend
    on the recipients before it; in all the loop makes one send per
    recipient and one reply per failed delivery. *)
Theorem dispatch_app (w : World) (l1 l2 : list Member) (message : string)
  (st : Cog) :
  events_of (dispatch w (l1 ++ l2) message st)
  = events_of (dispatch w l1 message st)
    ++ events_of (dispatch w l2 message st)
  ∧ length (events_of (dispatch w (l1 ++ l2) message st))
    = (length (l1 ++ l2)
       + length (filter (fun u => failed w u = true) (l1 ++ l2)))%nat.
Proof.
  rewrite !dispatch_spec. unfold events_of. simpl. split.
  - unfold dispatch_trace. apply bind_app.
  - generalize (l1 ++ l2). intros l.
    induction l as [|u l IH]; [done|].
    unfold dispatch_trace in *. rewrite bind_cons, length_app, IH, filter_cons.
    unfold send_trace, report_for, failed.
    destruct (dm_send w u); case_decide; simpl; try done; lia.
Qed.
